(** * A shallow embedding of the Raft replica of [log.py] and [server.py]

    The log ([log.py]) is a Python list of [LogEntry] objects addressed with
    1-based indices; the replica ([server.py]) is an object whose handlers
    mutate its fields.  Python integers are modelled as [Z], lists as [list],
    dictionaries as insertion-ordered association lists, exceptions as an
    explicit [outcome], and the mutation of [self] as state passing. *)

From Stdlib Require Import ZArith Lia.
From stdpp Require Import base list strings.

Set Warnings "-register-all".
Local Open Scope Z_scope.

(** ** Python values *)

(** Exceptions the modelled code can raise. *)
Inductive exn := IndexError | KeyError | AssertionError | AttributeError.

Inductive outcome (A : Type) :=
| Ret (a : A)
| Raise (e : exn).
Arguments Ret {A} a.
Arguments Raise {A} e.

Definition bind {A B} (m : outcome A) (k : A -> outcome B) : outcome B :=
  match m with
  | Ret a => k a
  | Raise e => Raise e
  end.

Notation "'do' x <- m ; k" := (bind m (fun x => k))
  (at level 10, x name, m at level 100, k at level 200).

(** A payload is whatever [request.get_json()] delivers. *)
Inductive json :=
| JNull
| JBool (b : bool)
| JInt (n : Z)
| JStr (s : string)
| JArr (xs : list json)
| JObj (kvs : list (string * json)).

(** Python truthiness, as tested by [if entry:]. *)
Definition truthy (v : json) : bool :=
  match v with
  | JNull => false
  | JBool b => b
  | JInt n => negb (n =? 0)
  | JStr s => negb (String.eqb s "")
  | JArr xs => negb (Nat.eqb (length xs) 0)
  | JObj kvs => negb (Nat.eqb (length kvs) 0)
  end.

(** [l[i]]: a negative index counts from the end, anything outside
    [-len .. len-1] raises [IndexError]. *)
Definition py_index {A} (l : list A) (i : Z) : outcome A :=
  let n := Z.of_nat (length l) in
  let j := if 0 <=? i then i else n + i in
  if (0 <=? j) && (j <? n)
  then match l !! Z.to_nat j with
       | Some x => Ret x
       | None => Raise IndexError
       end
  else Raise IndexError.

(** [l[:k]]: a negative bound counts from the end and is clamped at 0. *)
Definition py_slice_to {A} (l : list A) (k : Z) : list A :=
  if 0 <=? k then take (Z.to_nat k) l
  else take (Z.to_nat (Z.of_nat (length l) + k)) l.

(** [del l[i]]. *)
Definition py_del {A} (l : list A) (i : Z) : outcome (list A) :=
  let n := Z.of_nat (length l) in
  let j := if 0 <=? i then i else n + i in
  if (0 <=? j) && (j <? n) then Ret (delete (Z.to_nat j) l)
  else Raise IndexError.

(** A [dict] with string keys, in insertion order. *)
Definition dict (V : Type) := list (string * V).

Fixpoint dict_get {V} (d : dict V) (k : string) : option V :=
  match d with
  | [] => None
  | (k', v) :: d' => if String.eqb k' k then Some v else dict_get d' k
  end.

(** [d[k] = v]: an existing key keeps its position. *)
Fixpoint dict_set {V} (d : dict V) (k : string) (v : V) : dict V :=
  match d with
  | [] => [(k, v)]
  | (k', v') :: d' =>
      if String.eqb k' k then (k', v) :: d' else (k', v') :: dict_set d' k v
  end.

Definition dict_values {V} (d : dict V) : list V := map snd d.

(** [dict(zip(keys, [v] * len(keys)))]. *)
Definition dict_zip_const {V} (keys : list string) (v : V) : dict V :=
  fold_left (fun d k => dict_set d k v) keys [].

(** ** log.py *)

Record LogEntry := { term : Z; entry : json }.

Module Log.

(** The [log] attribute of a [Log] object; the logger has no state. *)
Abbreviation t := (list LogEntry).

Definition init : t := [].

Definition len (self : t) : Z := Z.of_nat (length self).

(** Returns the index of the added entry and the new log. *)
Definition append_item (self : t) (term0 : Z) (entry0 : json) : Z * t :=
  let log' := self ++ [{| term := term0; entry := entry0 |}] in
  (len log', log').

Definition get_item_term (self : t) (index : Z) : outcome Z :=
  if negb (index =? 0) then do e <- py_index self (index - 1); Ret (term e)
  else Ret 0.

Definition get_item (self : t) (index : Z) : outcome json :=
  if len self + 1 =? index then Ret JNull
  else do e <- py_index self (index - 1); Ret (entry e).

(** Returns the boolean answer and the log left behind; an exception is
    only possible before the log is written. *)
Definition sync_at_item (self : t) (index term0 : Z) : outcome (bool * t) :=
  if len self <? index then Ret (false, self)
  else
    do t0 <- get_item_term self index;
    if negb (t0 =? term0) then
      let log' := py_slice_to self (index - 1) in
      Ret (len log' =? 0, log')
    else
      Ret (true, py_slice_to self index).

End Log.

(** ** server.py *)

Inductive Role := FOLLOWER | LEADER | CANDIDATE.

(** The messages are JSON objects with fixed keys. *)
Record AppendEntriesRequest := {
  ae_term : Z;
  ae_leaderId : string;
  ae_prevLogIndex : Z;
  ae_prevLogTerm : Z;
  ae_entry : json;
  ae_leaderCommit : Z
}.

Record AppendEntriesResponse := { aer_term : Z; aer_success : bool }.

Record VoteRequest := {
  rv_term : Z;
  rv_candidateId : string;
  rv_lastLogIndex : Z;
  rv_lastLogTerm : Z
}.

Record VoteResponse := { rvr_term : Z; rvr_voteGranted : bool }.

(** The attributes of a [Server] object.  [talked_to_leader] takes the values
    [True], [False] and [None]; the transports, the logger and the threads
    are not state. *)
Record Server := {
  id : string;
  servers : list string;
  majority : Z;
  role : Role;
  talked_to_leader : option bool;
  current_term : Z;
  voted_for : option string;
  log : Log.t;
  leader_id : option string;
  commit_index : Z;
  last_applied : Z;
  followers_next_indexes : dict Z;
  followers_match_indexes : dict Z
}.

Definition set_role (v : Role) (s : Server) : Server :=
  {| id := id s; servers := servers s; majority := majority s; role := v;
     talked_to_leader := talked_to_leader s; current_term := current_term s;
     voted_for := voted_for s; log := log s; leader_id := leader_id s;
     commit_index := commit_index s; last_applied := last_applied s;
     followers_next_indexes := followers_next_indexes s;
     followers_match_indexes := followers_match_indexes s |}.

Definition set_talked_to_leader (v : option bool) (s : Server) : Server :=
  {| id := id s; servers := servers s; majority := majority s; role := role s;
     talked_to_leader := v; current_term := current_term s;
     voted_for := voted_for s; log := log s; leader_id := leader_id s;
     commit_index := commit_index s; last_applied := last_applied s;
     followers_next_indexes := followers_next_indexes s;
     followers_match_indexes := followers_match_indexes s |}.

Definition set_current_term (v : Z) (s : Server) : Server :=
  {| id := id s; servers := servers s; majority := majority s; role := role s;
     talked_to_leader := talked_to_leader s; current_term := v;
     voted_for := voted_for s; log := log s; leader_id := leader_id s;
     commit_index := commit_index s; last_applied := last_applied s;
     followers_next_indexes := followers_next_indexes s;
     followers_match_indexes := followers_match_indexes s |}.

Definition set_voted_for (v : option string) (s : Server) : Server :=
  {| id := id s; servers := servers s; majority := majority s; role := role s;
     talked_to_leader := talked_to_leader s; current_term := current_term s;
     voted_for := v; log := log s; leader_id := leader_id s;
     commit_index := commit_index s; last_applied := last_applied s;
     followers_next_indexes := followers_next_indexes s;
     followers_match_indexes := followers_match_indexes s |}.

Definition set_log (v : Log.t) (s : Server) : Server :=
  {| id := id s; servers := servers s; majority := majority s; role := role s;
     talked_to_leader := talked_to_leader s; current_term := current_term s;
     voted_for := voted_for s; log := v; leader_id := leader_id s;
     commit_index := commit_index s; last_applied := last_applied s;
     followers_next_indexes := followers_next_indexes s;
     followers_match_indexes := followers_match_indexes s |}.

Definition set_leader_id (v : option string) (s : Server) : Server :=
  {| id := id s; servers := servers s; majority := majority s; role := role s;
     talked_to_leader := talked_to_leader s; current_term := current_term s;
     voted_for := voted_for s; log := log s; leader_id := v;
     commit_index := commit_index s; last_applied := last_applied s;
     followers_next_indexes := followers_next_indexes s;
     followers_match_indexes := followers_match_indexes s |}.

Definition set_commit_index (v : Z) (s : Server) : Server :=
  {| id := id s; servers := servers s; majority := majority s; role := role s;
     talked_to_leader := talked_to_leader s; current_term := current_term s;
     voted_for := voted_for s; log := log s; leader_id := leader_id s;
     commit_index := v; last_applied := last_applied s;
     followers_next_indexes := followers_next_indexes s;
     followers_match_indexes := followers_match_indexes s |}.

Definition set_followers_next_indexes (v : dict Z) (s : Server) : Server :=
  {| id := id s; servers := servers s; majority := majority s; role := role s;
     talked_to_leader := talked_to_leader s; current_term := current_term s;
     voted_for := voted_for s; log := log s; leader_id := leader_id s;
     commit_index := commit_index s; last_applied := last_applied s;
     followers_next_indexes := v;
     followers_match_indexes := followers_match_indexes s |}.

Definition set_followers_match_indexes (v : dict Z) (s : Server) : Server :=
  {| id := id s; servers := servers s; majority := majority s; role := role s;
     talked_to_leader := talked_to_leader s; current_term := current_term s;
     voted_for := voted_for s; log := log s; leader_id := leader_id s;
     commit_index := commit_index s; last_applied := last_applied s;
     followers_next_indexes := followers_next_indexes s;
     followers_match_indexes := v |}.

(** [Server.__init__]: [majority] is computed from the full list, before the
    replica removes itself from [servers]. *)
Definition Server_init (servers0 : list string) (server_index : Z)
  : outcome Server :=
  do id0 <- py_index servers0 server_index;
  let majority0 := Z.of_nat (length servers0) / 2 + 1 in
  do servers1 <- py_del servers0 server_index;
  Ret {| id := id0; servers := servers1; majority := majority0;
         role := FOLLOWER; talked_to_leader := Some false;
         current_term := 0; voted_for := None; log := Log.init;
         leader_id := None; commit_index := 0; last_applied := 0;
         followers_next_indexes := []; followers_match_indexes := [] |}.

(** A handler returns the replica as the call leaves it together with the
    reply, or the exception that escaped: the fields written before an
    exception stay written. *)
Definition handle_append_entry_request (self : Server)
    (request : AppendEntriesRequest) : Server * outcome AppendEntriesResponse :=
  let result := {| aer_term := current_term self; aer_success := false |} in
  if ae_term request <? current_term self then (self, Ret result)
  else
    let self1 :=
      set_voted_for None
        (set_current_term (ae_term request)
           (set_leader_id (Some (ae_leaderId request))
              (set_talked_to_leader (Some true)
                 (set_role FOLLOWER self)))) in
    match Log.sync_at_item (log self1) (ae_prevLogIndex request)
            (ae_prevLogTerm request) with
    | Raise e => (self1, Raise e)
    | Ret (synced, log1) =>
        let self2 := set_log log1 self1 in
        if negb synced then (self2, Ret result)
        else
          let result := {| aer_term := aer_term result; aer_success := true |} in
          let self3 :=
            if truthy (ae_entry request)
            then set_log (snd (Log.append_item (log self2) (ae_term request)
                                 (ae_entry request))) self2
            else self2 in
          let self4 :=
            if ae_leaderCommit request >? commit_index self3
            then set_commit_index
                   (Z.min (ae_leaderCommit request) (Log.len (log self3))) self3
            else self3 in
          (self4, Ret result)
    end.

(** [self.voted_for and self.voted_for != candidate_id]: [None] and the empty
    string are falsy. *)
Definition voted_for_other (v : option string) (candidate_id : string) : bool :=
  match v with
  | None => false
  | Some w => negb (String.eqb w "") && negb (String.eqb w candidate_id)
  end.

Definition handle_vote_request (self : Server) (request : VoteRequest)
  : Server * outcome VoteResponse :=
  let result := {| rvr_term := current_term self; rvr_voteGranted := false |} in
  let candidate_id := rv_candidateId request in
  if rv_term request <? current_term self then (self, Ret result)
  else if voted_for_other (voted_for self) candidate_id then (self, Ret result)
  else
    let candidate_last_log_term := rv_lastLogTerm request in
    let candidate_last_log_index := rv_lastLogIndex request in
    match Log.get_item_term (log self) (Log.len (log self)) with
    | Raise e => (self, Raise e)
    | Ret last_term =>
        if last_term >? candidate_last_log_term then (self, Ret result)
        else if Log.len (log self) >? candidate_last_log_index
        then (self, Ret result)
        else
          (set_voted_for (Some candidate_id) self,
           Ret {| rvr_term := rvr_term result; rvr_voteGranted := true |})
    end.

Definition check_response_term (self : Server) (response_term : Z)
  : Server * bool :=
  if response_term >? current_term self then
    (set_leader_id None
       (set_current_term response_term (set_role FOLLOWER self)), false)
  else (self, true).

(** The loop of [try_leader_commit] over [followers_match_indexes.values()]:
    [true] when the running count reaches [majority] after some value. *)
Fixpoint commit_loop (majority0 index : Z) (values : list Z)
    (committed_servers : Z) : bool :=
  match values with
  | [] => false
  | match_index :: rest =>
      let committed_servers :=
        committed_servers + (if match_index >=? index then 1 else 0) in
      if committed_servers >=? majority0 then true
      else commit_loop majority0 index rest committed_servers
  end.

Definition try_leader_commit (self : Server) (index : Z) : Server * bool :=
  if commit_index self >=? index then (self, true)
  else if commit_loop (majority self) index
            (dict_values (followers_match_indexes self)) 1
  then (set_commit_index index self, true)
  else (self, false).

(** The transports are callbacks handed to the constructor; they answer with
    a reply or with [None] when nothing came back. *)
Definition append_entries_transport :=
  string -> AppendEntriesRequest -> option AppendEntriesResponse.
Definition request_vote_transport :=
  string -> VoteRequest -> option VoteResponse.

(** The request [append_entry_to_follower] sends for a given [next_index]. *)
Definition append_entries_request (self : Server) (next_index : Z)
  : outcome AppendEntriesRequest :=
  let prev_log_index := next_index - 1 in
  do prev_log_term <- Log.get_item_term (log self) prev_log_index;
  do entry0 <- Log.get_item (log self) next_index;
  Ret {| ae_term := current_term self; ae_leaderId := id self;
         ae_prevLogIndex := prev_log_index; ae_prevLogTerm := prev_log_term;
         ae_entry := entry0; ae_leaderCommit := commit_index self |}.

(** Returns the follower's next index, or [None] when the follower could not
    be reached or the replica stepped down.  A missing reply is reported
    through [self.logger.inf], which a [logging.Logger] does not have. *)
Definition append_entry_to_follower (transport : append_entries_transport)
    (self : Server) (follower_server : string) : Server * outcome (option Z) :=
  match dict_get (followers_next_indexes self) follower_server with
  | None => (self, Raise KeyError)
  | Some next_index =>
      match append_entries_request self next_index with
      | Raise e => (self, Raise e)
      | Ret request =>
          match transport follower_server request with
          | None => (self, Raise AttributeError)
          | Some result =>
              let (self1, up_to_date) :=
                check_response_term self (aer_term result) in
              if negb up_to_date then (self1, Ret None)
              else if negb (aer_success result) then
                let self2 :=
                  set_followers_next_indexes
                    (dict_set (followers_next_indexes self1) follower_server
                       (next_index - 1)) self1 in
                if next_index - 1 >? 0
                then (self2, Ret (Some (next_index - 1)))
                else (self2, Raise AssertionError)
              else if truthy (ae_entry request) then
                let self2 :=
                  set_followers_next_indexes
                    (dict_set (followers_next_indexes self1) follower_server
                       (next_index + 1)) self1 in
                let self3 :=
                  set_followers_match_indexes
                    (dict_set (followers_match_indexes self2) follower_server
                       next_index) self2 in
                let self4 := fst (try_leader_commit self3 next_index) in
                (self4, Ret (Some (next_index + 1)))
              else (self1, Ret (Some next_index))
          end
      end
  end.

(** Truthiness of the [talked_to_leader] flag. *)
Definition flag_set (f : option bool) : bool :=
  match f with
  | Some b => b
  | None => false
  end.

Definition become_leader (self : Server) : Server :=
  let self1 := set_role LEADER self in
  let self2 :=
    set_followers_next_indexes
      (dict_zip_const (servers self1) (Log.len (log self1) + 1)) self1 in
  set_followers_match_indexes (dict_zip_const (servers self2) 0) self2.

(** The [for server in self.servers] loop of [do_elections]. *)
Fixpoint request_votes (transport : request_vote_transport) (self : Server)
    (peers : list string) (votes : Z) : Server * outcome unit :=
  match peers with
  | [] => (self, Ret tt)
  | server :: rest =>
      let last_log_index := Log.len (log self) in
      match Log.get_item_term (log self) last_log_index with
      | Raise e => (self, Raise e)
      | Ret last_log_term =>
          let request :=
            {| rv_term := current_term self; rv_candidateId := id self;
               rv_lastLogIndex := last_log_index;
               rv_lastLogTerm := last_log_term |} in
          match transport server request with
          | None => request_votes transport self rest votes
          | Some vote =>
              let self1 := fst (check_response_term self (rvr_term vote)) in
              match role self1 with
              | FOLLOWER => (self1, Ret tt)
              | _ =>
                  let votes :=
                    if rvr_voteGranted vote then votes + 1 else votes in
                  if votes >=? majority self1 then (become_leader self1, Ret tt)
                  else request_votes transport self1 rest votes
              end
          end
      end
  end.

(** One pass of the [while True] loop of [do_elections], after the timed
    wait. *)
Definition do_elections (transport : request_vote_transport) (self : Server)
  : Server * outcome unit :=
  match role self with
  | LEADER => (self, Ret tt)
  | _ =>
      if flag_set (talked_to_leader self)
      then (set_talked_to_leader None self, Ret tt)
      else
        let self1 :=
          set_current_term (current_term self + 1) (set_role CANDIDATE self) in
        request_votes transport self1 (servers self1) 1
  end.

(** [handle_client_append_entry_request] up to its replication loop: a
    replica that is not the leader redirects, the leader appends the entry to
    its own log.  The loop that follows is a sequence of
    [append_entry_to_follower] calls. *)
Definition client_append (self : Server) (entry0 : json) : Server * option Z :=
  match role self with
  | LEADER =>
      let (entry_index, log1) :=
        Log.append_item (log self) (current_term self) entry0 in
      (set_log log1 self, Some entry_index)
  | _ => (self, None)
  end.

(** ** The replica as a transition system *)

(** A reply is honest when some replica running
    [handle_append_entry_request] on that very request produced it. *)
Definition honest (transport : append_entries_transport) : Prop :=
  forall peer request result,
    transport peer request = Some result ->
    exists follower : Server,
      snd (handle_append_entry_request follower request) = Ret result.

(** The transport that hands the request to one follower's handler; an
    exception in the handler reaches the caller as a missing reply. *)
Definition deliver_to (follower : Server) : append_entries_transport :=
  fun _ request =>
    match snd (handle_append_entry_request follower request) with
    | Ret result => Some result
    | Raise _ => None
    end.

(** One atomic step of a replica: a handled RPC, an election pass, a client
    request accepted by the leader, or one replication exchange. *)
Inductive step : Server -> Server -> Prop :=
| step_append_entries self request :
    step self (fst (handle_append_entry_request self request))
| step_vote self request :
    step self (fst (handle_vote_request self request))
| step_elections self transport :
    step self (fst (do_elections transport self))
| step_client self entry0 :
    step self (fst (client_append self entry0))
| step_replicate self transport follower_server :
    honest transport ->
    step self (fst (append_entry_to_follower transport self follower_server)).

Inductive reachable : Server -> Prop :=
| reachable_init servers0 server_index self :
    Server_init servers0 server_index = Ret self -> reachable self
| reachable_step self self' :
    reachable self -> step self self' -> reachable self'.

(** The number of replicas known to hold entry [index], the leader
    included. *)
Definition replicated_count (self : Server) (index : Z) : Z :=
  1 + Z.of_nat (length (filter (fun m => index <= m)
                          (dict_values (followers_match_indexes self)))).

(** ** Concrete values *)

(** The payloads of [test_log.py]. *)
Definition a1 : json := JObj [("a"%string, JInt 1)].
Definition a2 : json := JObj [("a"%string, JInt 2)].
Definition a3 : json := JObj [("a"%string, JInt 3)].

(** The first replica of a cluster of three, as [__init__] leaves it. *)
Definition fresh : Server :=
  {| id := "5000"; servers := ["5001"; "5002"]%string; majority := 2;
     role := FOLLOWER; talked_to_leader := Some false;
     current_term := 0; voted_for := None; log := Log.init;
     leader_id := None; commit_index := 0; last_applied := 0;
     followers_next_indexes := []; followers_match_indexes := [] |}.

Definition append_request (term0 : Z) (leader : string) (prev_index prev_term : Z)
    (entry0 : json) (leader_commit : Z) : AppendEntriesRequest :=
  {| ae_term := term0; ae_leaderId := leader; ae_prevLogIndex := prev_index;
     ae_prevLogTerm := prev_term; ae_entry := entry0;
     ae_leaderCommit := leader_commit |}.

Definition vote_request (term0 : Z) (candidate : string)
    (last_index last_term : Z) : VoteRequest :=
  {| rv_term := term0; rv_candidateId := candidate;
     rv_lastLogIndex := last_index; rv_lastLogTerm := last_term |}.

(** ** Invariants of reachable replicas *)

Definition next_indexes_positive (self : Server) : Prop :=
  Forall (fun kv : string * Z => 1 <= snd kv) (followers_next_indexes self).

(** [majority] is that of the whole cluster, a leader has at least one peer
    in its match table, and no next index is below 1. *)
Record replica_inv (self : Server) : Prop := {
  inv_majority :
    majority self = Z.of_nat (length (servers self) + 1) / 2 + 1;
  inv_leader : role self = LEADER -> followers_match_indexes self <> [];
  inv_next : next_indexes_positive self
}.

(** A vote transport under which every peer grants its vote. *)
Definition grant_all : request_vote_transport :=
  fun _ request => Some {| rvr_term := rv_term request; rvr_voteGranted := true |}.

(** The fresh replica after winning an election. *)
Definition elected : Server := fst (do_elections grant_all fresh).

(** A replica that took one entry as a follower before it was elected: the
    first election pass only consumes [talked_to_leader]. *)
Definition veteran : Server :=
  fst (do_elections grant_all
         (fst (do_elections grant_all
                 (fst (handle_append_entry_request fresh
                         (append_request 1 "5001" 0 0 a1 0)))))).

(** A transport that refuses everything with term 0, as no follower does. *)
Definition refuse_all : append_entries_transport :=
  fun _ _ => Some {| aer_term := 0; aer_success := false |}.

(** ** Closed forms *)

(** The term of the last entry, 0 for the empty log. *)
Definition last_log_term (l : Log.t) : Z :=
  match last l with
  | Some x => term x
  | None => 0
  end.

(** The four tests a vote request has to pass, in the order of
    [handle_vote_request]. *)
Definition vote_granted (self : Server) (request : VoteRequest) : bool :=
  (current_term self <=? rv_term request)
  && negb (voted_for_other (voted_for self) (rv_candidateId request))
  && (last_log_term (log self) <=? rv_lastLogTerm request)
  && (Log.len (log self) <=? rv_lastLogIndex request).

(** The state in which [do_elections] starts asking for votes. *)
Definition candidate (self : Server) : Server :=
  set_current_term (current_term self + 1) (set_role CANDIDATE self).

(** The request a candidate sends to every peer. *)
Definition candidate_request (self : Server) : VoteRequest :=
  {| rv_term := current_term self; rv_candidateId := id self;
     rv_lastLogIndex := Log.len (log self);
     rv_lastLogTerm := last_log_term (log self) |}.

(** Whether a peer answers a request with a granted vote. *)
Definition grants (transport : request_vote_transport) (request : VoteRequest)
    (server : string) : bool :=
  match transport server request with
  | Some vote => rvr_voteGranted vote
  | None => false
  end.

(** A vote transport over which nothing comes back. *)
Definition silent : request_vote_transport := fun _ _ => None.

(** ** Leader tables *)

(** What the tables of a leader look like: the cluster has peers, every peer
    has an entry in both tables, next indexes lie within [1 .. len + 1] and
    match indexes within [0 .. len]. *)
Record leader_inv (self : Server) : Prop := {
  leader_peers : servers self <> [];
  leader_keys :
    forall p, p ∈ servers self ->
      is_Some (dict_get (followers_next_indexes self) p) /\
      is_Some (dict_get (followers_match_indexes self) p);
  leader_next :
    Forall (fun kv : string * Z => 1 <= snd kv <= Log.len (log self) + 1)
      (followers_next_indexes self);
  leader_match :
    Forall (fun kv : string * Z => 0 <= snd kv <= Log.len (log self))
      (followers_match_indexes self)
}.

(** ** The drivers of a leader *)

(** The transport is a callback into the network: a call moves the world [W]
    behind it and may bring a reply back. *)
Definition append_entries_network (W : Type) : Type :=
  W -> string -> AppendEntriesRequest -> W * option AppendEntriesResponse.

(** One call of [append_entry_to_follower] against the network: the world
    moves when the request was built and sent, and the reply is the one the
    world gave to that request. *)
Definition exchange {W} (send : append_entries_network W) (w : W)
    (self : Server) (follower_server : string)
  : W * (Server * outcome (option Z)) :=
  let w' :=
    match dict_get (followers_next_indexes self) follower_server with
    | Some next_index =>
        match append_entries_request self next_index with
        | Ret request => fst (send w follower_server request)
        | Raise _ => w
        end
    | None => w
    end in
  (w', append_entry_to_follower (fun p r => snd (send w p r)) self
         follower_server).

(** The reply to a client: [{'success': ..., 'leader': ...}]. *)
Record ClientResponse := { cr_success : bool; cr_leader : option string }.

(** What ends a driver loop early: an exception of the calls it makes, or the
    modulo by the length of an empty server list. *)
Inductive driver_exn := Escaped (e : exn) | ZeroDivisionError.

(** A [while True] loop run for a bounded number of iterations: it returned,
    it raised, or it is still running. *)
Inductive run (A : Type) :=
| Returned (a : A)
| Raised (e : driver_exn)
| Running.
Arguments Returned {A} a.
Arguments Raised {A} e.
Arguments Running {A}.

(** The [while True] loop of [handle_client_append_entry_request].  The
    [assert(entry_index < next_index)] follows the test
    [entry_index >= next_index] and cannot fail. *)
Fixpoint client_append_loop {W} (send : append_entries_network W) (fuel : nat)
    (w : W) (self : Server) (entry_index server_index : Z)
  : W * (Server * run ClientResponse) :=
  match fuel with
  | O => (w, (self, Running))
  | S fuel' =>
      let n := Z.of_nat (length (servers self)) in
      if n =? 0 then (w, (self, Raised ZeroDivisionError))
      else
        let server_index := server_index mod n in
        match py_index (servers self) server_index with
        | Raise e => (w, (self, Raised (Escaped e)))
        | Ret server =>
            match exchange send w self server with
            | (w1, (self1, Raise e)) => (w1, (self1, Raised (Escaped e)))
            | (w1, (self1, Ret next_index)) =>
                match role self1 with
                | LEADER =>
                    match next_index with
                    | None =>
                        client_append_loop send fuel' w1 self1 entry_index
                          (server_index + 1)
                    | Some next_index =>
                        if next_index =? 0 then
                          client_append_loop send fuel' w1 self1 entry_index
                            (server_index + 1)
                        else if entry_index >=? next_index then
                          client_append_loop send fuel' w1 self1 entry_index
                            server_index
                        else if commit_index self1 =? entry_index then
                          (w1, (self1,
                                Returned {| cr_success := true;
                                            cr_leader := leader_id self1 |}))
                        else
                          client_append_loop send fuel' w1 self1 entry_index
                            (server_index + 1)
                    end
                | _ =>
                    (w1, (self1,
                          Returned {| cr_success := false;
                                      cr_leader := leader_id self1 |}))
                end
            end
        end
  end.

Definition handle_client_append_entry_request {W}
    (send : append_entries_network W) (fuel : nat) (w : W) (self : Server)
    (entry0 : json) : W * (Server * run ClientResponse) :=
  match client_append self entry0 with
  | (self1, Some entry_index) =>
      client_append_loop send fuel w self1 entry_index 0
  | (self1, None) =>
      (w, (self1, Returned {| cr_success := false;
                              cr_leader := leader_id self1 |}))
  end.

(** The inner [while True] loop of [send_heartbeats_and_sync_up] for one
    follower. *)
Fixpoint sync_follower {W} (send : append_entries_network W) (fuel : nat)
    (w : W) (self : Server) (server : string) : W * (Server * run unit) :=
  match fuel with
  | O => (w, (self, Running))
  | S fuel' =>
      match exchange send w self server with
      | (w1, (self1, Raise e)) => (w1, (self1, Raised (Escaped e)))
      | (w1, (self1, Ret None)) => (w1, (self1, Returned tt))
      | (w1, (self1, Ret (Some next_index))) =>
          if (next_index =? 0) || (next_index >? Log.len (log self1))
          then (w1, (self1, Returned tt))
          else sync_follower send fuel' w1 self1 server
      end
  end.

(** The [for server in self.servers] loop around it; [fuel] bounds each
    inner loop. *)
Fixpoint heartbeat_round {W} (send : append_entries_network W) (fuel : nat)
    (w : W) (self : Server) (peers : list string) : W * (Server * run unit) :=
  match peers with
  | [] => (w, (self, Returned tt))
  | server :: rest =>
      match sync_follower send fuel w self server with
      | (w1, (self1, Returned _)) => heartbeat_round send fuel w1 self1 rest
      | stopped => stopped
      end
  end.

(** One pass of the [while True] loop of [send_heartbeats_and_sync_up], up
    to the timed wait. *)
Definition send_heartbeats_and_sync_up {W} (send : append_entries_network W)
    (fuel : nat) (w : W) (self : Server) : W * (Server * run unit) :=
  match role self with
  | LEADER => heartbeat_round send fuel w self (servers self)
  | _ => (w, (self, Returned tt))
  end.

(** The other replicas of a cluster, by id, as the world behind the
    transport: the request is handled by the addressed replica, and a
    replica that is missing or whose handler raises gives no reply. *)
Definition cluster_send : append_entries_network (dict Server) :=
  fun w peer request =>
    match dict_get w peer with
    | None => (w, None)
    | Some follower =>
        let (follower', out) := handle_append_entry_request follower request in
        (dict_set w peer follower',
         match out with
         | Ret result => Some result
         | Raise _ => None
         end)
    end.

(** Every reply of the network is one a replica's handler gave to the
    request. *)
Definition honest_network {W} (send : append_entries_network W) : Prop :=
  forall w, honest (fun p r => snd (send w p r)).

(** Two fresh followers behind the elected replica. *)
Definition two_followers : dict Server :=
  [("5001"%string, fresh); ("5002"%string, fresh)].

(** A replica that only moved forward: same log, vote, identity and peers,
    term and commit index not lower. *)
Record advances (self self' : Server) : Prop := {
  adv_log : log self' = log self;
  adv_voted_for : voted_for self' = voted_for self;
  adv_servers : servers self' = servers self;
  adv_id : id self' = id self;
  adv_majority : majority self' = majority self;
  adv_term : current_term self <= current_term self';
  adv_commit : commit_index self <= commit_index self'
}.

(** ** A follower catching up *)

(** Follower [f], held under [p] in the world, lags behind [self]: its log
    is a prefix of the log of [self], its term is not above, the next index
    [n] kept for it is in range, and every entry of [self] was appended in
    its current term with a truthy payload. *)
Record lagging (w : dict Server) (self : Server) (p : string) (f : Server)
    (n : Z) : Prop := {
  lag_world : dict_get w p = Some f;
  lag_next : dict_get (followers_next_indexes self) p = Some n;
  lag_range : 1 <= n <= Log.len (log self) + 1;
  lag_prefix : log f `prefix_of` log self;
  lag_term : current_term f <= current_term self;
  lag_own :
    Forall (fun x => term x = current_term self /\ truthy (entry x) = true)
      (log self)
}.

(** The elected replica after two client entries of its own term. *)
Definition busy : Server :=
  fst (client_append (fst (client_append elected a1)) a2).

(** * Properties *)

(** ** The log, on the traffic of [test_log.py] *)

Example test_append_item :
  fst (Log.append_item Log.init 1 a1) = 1 /\
  fst (Log.append_item (snd (Log.append_item Log.init 1 a1)) 1 a2) = 2.
Proof. split; reflexivity. Qed.

Example test_sync_at_item_too_big_index :
  Log.sync_at_item Log.init 1 1 = Ret (false, Log.init) /\
  Log.sync_at_item [{| term := 1; entry := a1 |}] 2 1
  = Ret (false, [{| term := 1; entry := a1 |}]).
Proof. split; reflexivity. Qed.

Example test_sync_at_item_mismatch_terms :
  Log.sync_at_item
    [{| term := 1; entry := a2 |}; {| term := 1; entry := a3 |}] 2 2
  = Ret (false, [{| term := 1; entry := a2 |}]).
Proof. reflexivity. Qed.

Example test_get_item :
  Log.get_item Log.init 1 = Ret JNull /\
  Log.get_item [{| term := 1; entry := a1 |}] 1 = Ret a1 /\
  Log.get_item [{| term := 1; entry := a1 |}] 2 = Ret JNull.
Proof. repeat split; reflexivity. Qed.

Section LogFacts.

Implicit Types (l : Log.t) (i t : Z).

Lemma len_nonneg l : 0 <= Log.len l.
Proof. unfold Log.len. lia. Qed.

Lemma py_index_in_range {A} (xs : list A) (j : Z) :
  0 <= j < Z.of_nat (length xs) ->
  exists x, xs !! Z.to_nat j = Some x /\ py_index xs j = Ret x.
Proof.
  intros Hj. unfold py_index. cbv zeta.
  assert (Hle : (0 <=? j) = true) by (apply Z.leb_le; lia).
  assert (Hlt : (j <? Z.of_nat (length xs)) = true) by (apply Z.ltb_lt; lia).
  rewrite !Hle, Hlt. simpl.
  assert (Hsome : is_Some (xs !! Z.to_nat j))
    by (apply lookup_lt_is_Some_2; lia).
  destruct Hsome as [x Hx].
  exists x. rewrite Hx. auto.
Qed.

Lemma py_slice_to_nonneg {A} (xs : list A) (k : Z) :
  0 <= k -> py_slice_to xs k = take (Z.to_nat k) xs.
Proof.
  intros Hk. unfold py_slice_to.
  destruct (0 <=? k) eqn:E; [reflexivity|].
  apply Z.leb_gt in E. lia.
Qed.

Lemma len_slice_le l k :
  0 <= k <= Log.len l -> Log.len (py_slice_to l k) = k.
Proof.
  unfold Log.len. intros Hk. rewrite py_slice_to_nonneg by lia.
  rewrite length_take_le by lia. lia.
Qed.

Lemma get_item_term_0 l : Log.get_item_term l 0 = Ret 0.
Proof. reflexivity. Qed.

(** The index of the last entry never raises. *)
Lemma get_item_term_len l : exists t, Log.get_item_term l (Log.len l) = Ret t.
Proof.
  unfold Log.get_item_term.
  destruct (Log.len l =? 0) eqn:E; simpl; [eauto|].
  apply Z.eqb_neq in E. pose proof (len_nonneg l).
  destruct (py_index_in_range l (Log.len l - 1)) as (e & _ & He).
  { unfold Log.len in *. lia. }
  rewrite He. simpl. eauto.
Qed.

(** What [sync_at_item] does at a valid index [1 <= i <= len]. *)
Lemma sync_at_item_in_range l i t :
  1 <= i <= Log.len l ->
  exists e, l !! Z.to_nat (i - 1) = Some e /\
    Log.sync_at_item l i t =
      if term e =? t then Ret (true, take (Z.to_nat i) l)
      else Ret (i - 1 =? 0, take (Z.to_nat (i - 1)) l).
Proof.
  intros Hi. unfold Log.sync_at_item, Log.get_item_term.
  assert (E1 : (Log.len l <? i) = false) by (apply Z.ltb_ge; lia).
  assert (E2 : (i =? 0) = false) by (apply Z.eqb_neq; lia).
  rewrite E1, E2. simpl.
  destruct (py_index_in_range l (i - 1)) as (e & Hl & He).
  { unfold Log.len in *. lia. }
  exists e. split; [exact Hl|]. rewrite He. simpl.
  destruct (term e =? t); simpl.
  - rewrite py_slice_to_nonneg by lia. reflexivity.
  - rewrite len_slice_le by lia. rewrite py_slice_to_nonneg by lia.
    reflexivity.
Qed.

Lemma sync_at_item_0 l t :
  Log.sync_at_item l 0 t =
    if t =? 0 then Ret (true, [])
    else Ret (Log.len (py_slice_to l (-1)) =? 0, py_slice_to l (-1)).
Proof.
  unfold Log.sync_at_item.
  assert (E1 : (Log.len l <? 0) = false)
    by (apply Z.ltb_ge; apply len_nonneg).
  rewrite E1. destruct t; reflexivity.
Qed.

End LogFacts.

(** C7, as stated, fails: on a log of one entry [sync_at_item(0, 0)] returns
    true but does not retain the log, it empties it. *)
Lemma sync_at_item_0_0_drops_entries :
  Log.sync_at_item [{| term := 1; entry := a1 |}] 0 0 = Ret (true, []) /\
  Log.sync_at_item [{| term := 1; entry := a1 |}] 0 0
  <> Ret (true, [{| term := 1; entry := a1 |}]).
Proof. split; [reflexivity | discriminate]. Qed.

(** C7, amended: for every log, [sync_at_item(0, 0)] returns true and leaves
    the log empty; an empty log is therefore unchanged and a non-empty log is
    truncated to length 0. *)
Theorem sync_at_item_0_0_empties (l : Log.t) :
  Log.sync_at_item l 0 0 = Ret (true, []) /\
  Log.sync_at_item [] 0 0 = Ret (true, []).
Proof.
  split; [apply (sync_at_item_0 l 0) | reflexivity].
Qed.

(** C1, as stated, fails: on the log [[(1, a1)]] the call
    [sync_at_item(1, 2)] returns true and leaves the log empty, so no entry
    exists at index 1. *)
Lemma sync_at_item_true_without_entry :
  exists l',
    Log.sync_at_item [{| term := 1; entry := a1 |}] 1 2 = Ret (true, l') /\
    ~ (exists e, l' !! Z.to_nat (1 - 1) = Some e /\ term e = 2).
Proof.
  exists []. split; [reflexivity|].
  intros (e & He & _). discriminate He.
Qed.

(** C1, amended: when [sync_at_item(i, t)] with [i >= 0] returns true, the
    log left behind has length at most [i], and when [i >= 1] either the
    entry at index [i] exists with term [t] (and is the last one), or [i = 1],
    the entry that was at index 1 had another term and the log is now
    empty. *)
Theorem sync_at_item_true (l l' : Log.t) (i t : Z) :
  0 <= i ->
  Log.sync_at_item l i t = Ret (true, l') ->
  Log.len l' <= i /\
  (1 <= i ->
   (exists e, l' !! Z.to_nat (i - 1) = Some e /\ term e = t /\ Log.len l' = i)
   \/ (i = 1 /\ l' = [] /\
       exists e, l !! 0%nat = Some e /\ term e <> t)).
Proof.
  intros Hi Hsync.
  destruct (Z.eq_dec i 0) as [-> | Hne].
  - rewrite sync_at_item_0 in Hsync. split; [|lia].
    destruct (t =? 0).
    + injection Hsync as <-. reflexivity.
    + injection Hsync as Hlen <-. apply Z.eqb_eq in Hlen. lia.
  - destruct (Z.ltb_spec (Log.len l) i) as [Hlt | Hge].
    + unfold Log.sync_at_item in Hsync.
      apply Z.ltb_lt in Hlt. rewrite Hlt in Hsync. discriminate.
    + destruct (sync_at_item_in_range l i t) as (e & He & Heq); [lia|].
      rewrite Heq in Hsync. clear Heq.
      destruct (term e =? t) eqn:Et.
      * apply Z.eqb_eq in Et. injection Hsync as <-.
        assert (Hlen : Log.len (take (Z.to_nat i) l) = i).
        { unfold Log.len in *. rewrite length_take_le by lia. lia. }
        split; [lia|]. intros _. left. exists e.
        rewrite lookup_take_lt by lia. auto.
      * apply Z.eqb_neq in Et. injection Hsync as H1 <-.
        apply Z.eqb_eq in H1. assert (i = 1) as -> by lia.
        simpl. split; [unfold Log.len; simpl; lia|].
        intros _. right. repeat split. exists e. split; [exact He | exact Et].
Qed.

Lemma sync_at_item_true_witness :
  Log.len [{| term := 1; entry := a1 |}] <= 1 /\
  (1 <= 1 ->
   (exists e, [{| term := 1; entry := a1 |}] !! Z.to_nat (1 - 1) = Some e
              /\ term e = 1 /\ Log.len [{| term := 1; entry := a1 |}] = 1)
   \/ (1 = 1 /\ [{| term := 1; entry := a1 |}] = [] /\
       exists e, [{| term := 1; entry := a1 |};
                  {| term := 1; entry := a2 |}] !! 0%nat = Some e
                 /\ term e <> 1)).
Proof.
  apply (sync_at_item_true
           [{| term := 1; entry := a1 |}; {| term := 1; entry := a2 |}]
           [{| term := 1; entry := a1 |}] 1 1).
  - lia.
  - reflexivity.
Defined.

(** ** Construction *)

Lemma Server_init_fresh :
  Server_init ["5000"; "5001"; "5002"]%string 0 = Ret fresh.
Proof. reflexivity. Qed.

Lemma reachable_fresh : reachable fresh.
Proof. exact (reachable_init _ _ _ Server_init_fresh). Qed.

(** ** AppendEntries handler *)

(** C10: a request whose term is below [current_term] is answered with
    [{term: current_term, success: False}] and the replica is returned exactly
    as it was: role, term, vote, leader id, [talked_to_leader], log and commit
    index included. *)
Theorem stale_append_entries_rejected (self : Server)
    (request : AppendEntriesRequest) :
  ae_term request < current_term self ->
  handle_append_entry_request self request =
    (self, Ret {| aer_term := current_term self; aer_success := false |}).
Proof.
  intros Hstale. unfold handle_append_entry_request.
  apply Z.ltb_lt in Hstale. rewrite Hstale. reflexivity.
Qed.

Lemma stale_append_entries_rejected_witness :
  handle_append_entry_request (set_current_term 2 fresh)
    (append_request 1 "5001" 0 0 a1 0) =
    (set_current_term 2 fresh,
     Ret {| aer_term := current_term (set_current_term 2 fresh);
            aer_success := false |}).
Proof.
  apply (stale_append_entries_rejected (set_current_term 2 fresh)
           (append_request 1 "5001" 0 0 a1 0)).
  simpl. lia.
Defined.

(** What an accepted request does: the reply was built before the term was
    adopted, so it carries the term the replica had when the call started. *)
Lemma accepted_append_entries (self self' : Server)
    (request : AppendEntriesRequest) (result : AppendEntriesResponse) :
  current_term self <= ae_term request ->
  handle_append_entry_request self request = (self', Ret result) ->
  current_term self' = ae_term request /\
  aer_term result = current_term self /\
  role self' = FOLLOWER /\ voted_for self' = None /\
  leader_id self' = Some (ae_leaderId request) /\
  talked_to_leader self' = Some true.
Proof.
  intros Hterm. unfold handle_append_entry_request.
  apply Z.ltb_ge in Hterm. rewrite Hterm.
  destruct (Log.sync_at_item _ _ _) as [[synced log1] | e]; [|discriminate].
  destruct synced; simpl.
  - destruct (truthy (ae_entry request));
      destruct (ae_leaderCommit request >? _);
      intros [= <- <-]; simpl; auto 10.
  - intros [= <- <-]; simpl; auto 10.
Qed.

(** The log after an accepted request whose log check passed: the synced
    prefix, followed by the entry when the payload is truthy. *)
Lemma accepted_append_entries_log (self : Server)
    (request : AppendEntriesRequest) (log1 : Log.t) :
  current_term self <= ae_term request ->
  Log.sync_at_item (log self) (ae_prevLogIndex request)
    (ae_prevLogTerm request) = Ret (true, log1) ->
  snd (handle_append_entry_request self request)
  = Ret {| aer_term := current_term self; aer_success := true |} /\
  log (fst (handle_append_entry_request self request)) =
    if truthy (ae_entry request)
    then log1 ++ [{| term := ae_term request; entry := ae_entry request |}]
    else log1.
Proof.
  intros Hterm Hsync. unfold handle_append_entry_request.
  apply Z.ltb_ge in Hterm. rewrite Hterm. simpl. rewrite Hsync. simpl.
  destruct (truthy (ae_entry request));
    destruct (ae_leaderCommit request >? _); simpl; auto.
Qed.

(** C5: a fresh replica (term 0) accepts a heartbeat of term 1 and adopts the
    term, yet the reply it returns carries term 0, not the adopted term. *)
Theorem accepted_reply_carries_old_term :
  let out := handle_append_entry_request fresh
               (append_request 1 "5001" 0 0 JNull 0) in
  snd out = Ret {| aer_term := 0; aer_success := true |} /\
  current_term (fst out) = 1.
Proof. split; reflexivity. Qed.

(** C6: an accepted request whose payload is the empty object, a non-null
    value, appends nothing: the handler tests the truth value of the payload,
    and the log of the fresh replica stays empty. *)
Theorem falsy_entry_not_appended :
  let out := handle_append_entry_request fresh
               (append_request 1 "5001" 0 0 (JObj []) 0) in
  snd out = Ret {| aer_term := 0; aer_success := true |} /\
  log (fst out) = [] /\
  JObj [] <> JNull.
Proof. repeat split. discriminate. Qed.

(** ** Commit index *)

(** [try_leader_commit] never lowers the commit index. *)
Lemma try_leader_commit_monotone (self : Server) (index : Z) :
  commit_index self <= commit_index (fst (try_leader_commit self index)).
Proof.
  unfold try_leader_commit.
  destruct (Z.geb_spec (commit_index self) index); simpl; [lia|].
  destruct (commit_loop _ _ _ _); simpl; lia.
Qed.

(** The AppendEntries handler keeps the commit index when the log it ends
    with still covers it. *)
Lemma append_entries_commit_monotone (self : Server)
    (request : AppendEntriesRequest) :
  let self' := fst (handle_append_entry_request self request) in
  commit_index self <= Log.len (log self') ->
  commit_index self <= commit_index self'.
Proof.
  unfold handle_append_entry_request.
  destruct (ae_term request <? current_term self); simpl; [lia|].
  destruct (Log.sync_at_item _ _ _) as [[synced log1] | e]; simpl; [|lia].
  destruct synced; simpl; [|lia].
  destruct (truthy (ae_entry request)); simpl;
    destruct (Z.gtb_spec (ae_leaderCommit request) (commit_index self));
    simpl; lia.
Qed.

(** C3: a follower holding two entries with commit index 2 receives the
    repair request of a new leader whose entry at index 1 has another term;
    the log is cut back and the commit index falls from 2 to 1. *)
Theorem append_entries_lowers_commit_index :
  let s1 := fst (handle_append_entry_request fresh
                   (append_request 1 "5001" 0 0 a1 0)) in
  let s2 := fst (handle_append_entry_request s1
                   (append_request 1 "5001" 1 1 a2 2)) in
  let out := handle_append_entry_request s2
               (append_request 2 "5002" 1 2 a3 3) in
  commit_index s2 = 2 /\
  snd out = Ret {| aer_term := 1; aer_success := true |} /\
  commit_index (fst out) = 1 /\
  commit_index (fst out) < commit_index s2.
Proof. repeat split. Qed.

(** ** Votes *)

(** Between two vote requests with nothing else handled, a replica that
    voted for one candidate refuses every other candidate. *)
Lemma vote_refused_after_voting (self : Server) (request : VoteRequest)
    (voted : string) :
  voted_for self = Some voted -> voted <> ""%string ->
  voted <> rv_candidateId request ->
  handle_vote_request self request =
    (self, Ret {| rvr_term := current_term self; rvr_voteGranted := false |}).
Proof.
  intros Hv Hne Hother. unfold handle_vote_request.
  destruct (rv_term request <? current_term self); [reflexivity|].
  rewrite Hv. simpl.
  apply String.eqb_neq in Hne, Hother. rewrite Hne, Hother. reflexivity.
Qed.

(** C2: a fresh replica grants its vote for term 1 to candidate 5001, handles
    one AppendEntries heartbeat of term 1, which clears [voted_for], and then
    grants a vote for term 1 to candidate 5002 as well. *)
Theorem two_votes_in_one_term :
  let out1 := handle_vote_request fresh (vote_request 1 "5001" 0 0) in
  let s2 := fst (handle_append_entry_request (fst out1)
                   (append_request 1 "5001" 0 0 JNull 0)) in
  let out3 := handle_vote_request s2 (vote_request 1 "5002" 0 0) in
  snd out1 = Ret {| rvr_term := 0; rvr_voteGranted := true |} /\
  voted_for (fst out1) = Some "5001"%string /\
  voted_for s2 = None /\
  snd out3 = Ret {| rvr_term := 1; rvr_voteGranted := true |} /\
  voted_for (fst out3) = Some "5002"%string.
Proof. repeat split. Qed.

(** ** Terms *)

(** Splits on the scrutinee of every [match] and [if] the goal is stuck on. *)
Ltac case_split :=
  repeat (simpl;
          match goal with
          | |- context [match ?x with _ => _ end] => destruct x eqn:?
          end);
  simpl.

Section TermMonotone.

Implicit Types (self : Server).

Lemma check_response_term_current_term self response_term :
  current_term self
  <= current_term (fst (check_response_term self response_term)).
Proof.
  unfold check_response_term.
  destruct (Z.gtb_spec response_term (current_term self)); simpl; lia.
Qed.

Lemma try_leader_commit_current_term self index :
  current_term (fst (try_leader_commit self index)) = current_term self.
Proof. unfold try_leader_commit. case_split; reflexivity. Qed.

Lemma handle_append_entry_request_current_term self request :
  current_term self
  <= current_term (fst (handle_append_entry_request self request)).
Proof.
  unfold handle_append_entry_request.
  destruct (Z.ltb_spec (ae_term request) (current_term self)); simpl; [lia|].
  case_split; lia.
Qed.

Lemma handle_vote_request_current_term self request :
  current_term (fst (handle_vote_request self request)) = current_term self.
Proof. unfold handle_vote_request. case_split; reflexivity. Qed.

Lemma request_votes_current_term transport peers : forall self votes,
  current_term self
  <= current_term (fst (request_votes transport self peers votes)).
Proof.
  induction peers as [|server rest IH]; intros self votes; simpl; [lia|].
  destruct (Log.get_item_term _ _) as [last_log_term|e]; simpl; [|lia].
  destruct (transport server _) as [vote|]; [|apply IH].
  pose proof (check_response_term_current_term self (rvr_term vote)) as Hc.
  set (self1 := fst (check_response_term self (rvr_term vote))) in *.
  destruct (role self1); simpl; try lia;
    destruct (_ >=? majority self1); simpl; try lia;
    (apply Z.le_trans with (current_term self1); [exact Hc | apply IH]).
Qed.

Lemma do_elections_current_term transport self :
  current_term self <= current_term (fst (do_elections transport self)).
Proof.
  unfold do_elections.
  destruct (role self); simpl; try lia;
    destruct (flag_set (talked_to_leader self)); simpl; try lia;
    (eapply Z.le_trans; [|apply request_votes_current_term]); simpl; lia.
Qed.

Lemma append_entry_to_follower_current_term transport self follower_server :
  current_term self
  <= current_term
       (fst (append_entry_to_follower transport self follower_server)).
Proof.
  unfold append_entry_to_follower.
  destruct (dict_get _ _) as [next_index|]; simpl; [|lia].
  destruct (append_entries_request self next_index) as [request|e];
    simpl; [|lia].
  destruct (transport follower_server request) as [result|]; simpl; [|lia].
  pose proof (check_response_term_current_term self (aer_term result)) as Hc.
  destruct (check_response_term self (aer_term result)) as [self1 ok].
  simpl in Hc.
  destruct ok; simpl; [|lia].
  destruct (aer_success result); simpl.
  - destruct (truthy (ae_entry request)); simpl; [|lia].
    rewrite try_leader_commit_current_term. simpl. lia.
  - destruct (next_index - 1 >? 0); simpl; lia.
Qed.

Lemma client_append_current_term self entry0 :
  current_term (fst (client_append self entry0)) = current_term self.
Proof. unfold client_append. destruct (role self); reflexivity. Qed.

Lemma step_current_term self self' :
  step self self' -> current_term self <= current_term self'.
Proof.
  destruct 1.
  - apply handle_append_entry_request_current_term.
  - rewrite handle_vote_request_current_term. lia.
  - apply do_elections_current_term.
  - rewrite client_append_current_term. lia.
  - apply append_entry_to_follower_current_term.
Qed.

End TermMonotone.

(** C8: [current_term] never decreases.  For every replica state and every
    input, the AppendEntries handler, the RequestVote handler,
    [check_response_term], an election pass (the increment and the replies it
    processes), and also a replication exchange and a client append leave
    [current_term] at or above its previous value. *)
Theorem current_term_monotone (self : Server) :
  (forall request,
     current_term self
     <= current_term (fst (handle_append_entry_request self request))) /\
  (forall request,
     current_term self
     <= current_term (fst (handle_vote_request self request))) /\
  (forall response_term,
     current_term self
     <= current_term (fst (check_response_term self response_term))) /\
  (forall transport,
     current_term self <= current_term (fst (do_elections transport self))) /\
  (forall transport follower_server,
     current_term self
     <= current_term
          (fst (append_entry_to_follower transport self follower_server))) /\
  (forall entry0,
     current_term self <= current_term (fst (client_append self entry0))).
Proof.
  repeat split; intros.
  - apply handle_append_entry_request_current_term.
  - rewrite handle_vote_request_current_term. lia.
  - apply check_response_term_current_term.
  - apply do_elections_current_term.
  - apply append_entry_to_follower_current_term.
  - rewrite client_append_current_term. lia.
Qed.

(** An election pass that starts a vote raises the term by at least one. *)
Lemma do_elections_increments (transport : request_vote_transport)
    (self : Server) :
  role self <> LEADER -> flag_set (talked_to_leader self) = false ->
  current_term self + 1 <= current_term (fst (do_elections transport self)).
Proof.
  intros Hrole Hflag. unfold do_elections. rewrite Hflag.
  destruct (role self); try congruence;
    (eapply Z.le_trans; [|apply request_votes_current_term]); simpl; lia.
Qed.

(** ** Dictionaries *)

Section DictFacts.

Context {V : Type}.
Implicit Types (d : dict V) (k : string) (v : V) (Q : V -> Prop).

Lemma dict_set_nonempty d k v : dict_set d k v <> [].
Proof.
  destruct d as [|[k' v'] d']; simpl; [discriminate|].
  destruct (String.eqb k' k); discriminate.
Qed.

Lemma dict_zip_const_nonempty keys v :
  keys <> [] -> dict_zip_const keys v <> [].
Proof.
  unfold dict_zip_const.
  assert (Hfold : forall ks d, d <> [] ->
            fold_left (fun d k => dict_set d k v) ks d <> []).
  { induction ks as [|k ks IH]; intros d Hd; simpl; [exact Hd|].
    apply IH, dict_set_nonempty. }
  destruct keys as [|k ks]; [congruence|]. intros _. simpl.
  apply Hfold. discriminate.
Qed.

Lemma dict_set_Forall Q d k v :
  Forall (fun kv => Q (snd kv)) d -> Q v ->
  Forall (fun kv => Q (snd kv)) (dict_set d k v).
Proof.
  intros Hd Hv. induction Hd as [|[k' v'] d' Hx Hd' IH]; simpl.
  - constructor; [exact Hv | constructor].
  - destruct (String.eqb k' k); constructor; auto.
Qed.

Lemma dict_zip_const_Forall Q keys v :
  Q v -> Forall (fun kv => Q (snd kv)) (dict_zip_const keys v).
Proof.
  intros Hv. unfold dict_zip_const.
  assert (Hfold : forall ks d, Forall (fun kv => Q (snd kv)) d ->
            Forall (fun kv => Q (snd kv))
              (fold_left (fun d k => dict_set d k v) ks d)).
  { induction ks as [|k ks IH]; intros d Hd; simpl; [exact Hd|].
    apply IH, dict_set_Forall; assumption. }
  apply Hfold. constructor.
Qed.

Lemma dict_get_Forall Q d k v :
  Forall (fun kv => Q (snd kv)) d -> dict_get d k = Some v -> Q v.
Proof.
  induction 1 as [|[k' v'] d' Hx Hd' IH]; simpl; [discriminate|].
  destruct (String.eqb k' k); [|exact IH].
  intros [= <-]. exact Hx.
Qed.

End DictFacts.

(** ** The commit rule *)

(** The loop answers by the final count as soon as there is one value to
    look at; over no values it answers no. *)
Lemma commit_loop_count (majority0 index : Z) (values : list Z) :
  forall committed_servers,
    commit_loop majority0 index values committed_servers =
      match values with
      | [] => false
      | _ => majority0 <=? committed_servers
               + Z.of_nat (length (filter (fun m => index <= m) values))
      end.
Proof.
  induction values as [|m rest IH]; intros c; [reflexivity|].
  cbn [commit_loop]. rewrite IH. clear IH.
  assert (Hcount :
    Z.of_nat (length (filter (fun m => index <= m) (m :: rest))) =
    (if m >=? index then 1 else 0)
    + Z.of_nat (length (filter (fun m => index <= m) rest))).
  { destruct (Z.geb_spec m index).
    - rewrite filter_cons_True by lia. simpl length. lia.
    - rewrite filter_cons_False by lia. lia. }
  rewrite Hcount. clear Hcount.
  set (b := if m >=? index then 1 else 0).
  assert (0 <= b <= 1) by (subst b; destruct (m >=? index); lia).
  destruct (Z.geb_spec (c + b) majority0).
  - symmetry. apply Z.leb_le. lia.
  - destruct rest as [|m' rest'].
    + simpl. symmetry. apply Z.leb_gt. lia.
    + f_equal. lia.
Qed.

Lemma try_leader_commit_already (self : Server) (index : Z) :
  index <= commit_index self -> try_leader_commit self index = (self, true).
Proof.
  intros H. unfold try_leader_commit.
  destruct (Z.geb_spec (commit_index self) index); [reflexivity | lia].
Qed.

Lemma try_leader_commit_count (self : Server) (index : Z) :
  followers_match_indexes self <> [] ->
  commit_index self < index ->
  try_leader_commit self index =
    if majority self <=? replicated_count self index
    then (set_commit_index index self, true)
    else (self, false).
Proof.
  intros Hpeers Hlt. unfold try_leader_commit, replicated_count.
  destruct (Z.geb_spec (commit_index self) index); [lia|].
  rewrite commit_loop_count.
  destruct (dict_values (followers_match_indexes self)) eqn:Hv; [|reflexivity].
  unfold dict_values in Hv. apply map_eq_nil in Hv. contradiction.
Qed.

(** A replica without peers in its match table never commits through
    [try_leader_commit], whatever [majority] is. *)
Lemma try_leader_commit_no_peers (self : Server) (index : Z) :
  followers_match_indexes self = [] ->
  commit_index self < index ->
  try_leader_commit self index = (self, false).
Proof.
  intros Hpeers Hlt. unfold try_leader_commit.
  destruct (Z.geb_spec (commit_index self) index); [lia|].
  rewrite Hpeers. reflexivity.
Qed.

(** ** Replication exchanges *)

Lemma check_response_term_cases (self : Server) (response_term : Z) :
  (response_term <= current_term self /\
   check_response_term self response_term = (self, true))
  \/ check_response_term self response_term =
       (set_leader_id None
          (set_current_term response_term (set_role FOLLOWER self)), false).
Proof.
  unfold check_response_term.
  destruct (Z.gtb_spec response_term (current_term self)); [right | left];
    auto with zarith.
Qed.

(** A follower running the handler never refuses the request a leader sends
    for next index 1 unless it answers with a term above the leader's: the
    previous index is 0, and [sync_at_item(0, 0)] always succeeds. *)
Lemma honest_refusal_has_previous_entry
    (transport : append_entries_transport) (self : Server)
    (follower_server : string) (next_index : Z)
    (request : AppendEntriesRequest) (result : AppendEntriesResponse) :
  honest transport ->
  1 <= next_index ->
  append_entries_request self next_index = Ret request ->
  transport follower_server request = Some result ->
  aer_success result = false ->
  aer_term result <= current_term self ->
  2 <= next_index.
Proof.
  intros Hhonest Hpos Hreq Hreply Hfail Hterm.
  destruct (Z.eq_dec next_index 1) as [-> | Hne]; [|lia].
  exfalso.
  destruct (Hhonest _ _ _ Hreply) as [follower Hhandled].
  unfold append_entries_request in Hreq. simpl in Hreq.
  destruct (Log.get_item (log self) 1) as [entry0|e]; [|discriminate].
  simpl in Hreq. injection Hreq as <-.
  unfold handle_append_entry_request in Hhandled. simpl in Hhandled.
  destruct (Z.ltb_spec (current_term self) (current_term follower)).
  - injection Hhandled as <-. simpl in Hterm. lia.
  - rewrite sync_at_item_0 in Hhandled. simpl in Hhandled.
    injection Hhandled as <-. discriminate.
Qed.

Lemma honest_deliver_to (follower : Server) : honest (deliver_to follower).
Proof.
  intros peer request result. unfold deliver_to.
  destruct (snd (handle_append_entry_request follower request)) eqn:Hh;
    [|discriminate].
  intros [= <-]. exists follower. exact Hh.
Qed.

(** ** Invariants *)

Section Invariants.

Implicit Types (self : Server).

Lemma replica_inv_frame self self' :
  replica_inv self ->
  servers self' = servers self -> majority self' = majority self ->
  (role self' = LEADER -> followers_match_indexes self' <> []) ->
  next_indexes_positive self' ->
  replica_inv self'.
Proof.
  intros [Hm _ _] Hs Hmaj Hl Hn. constructor; auto. rewrite Hs, Hmaj. auto.
Qed.

Lemma Server_init_inv servers0 server_index self :
  Server_init servers0 server_index = Ret self -> replica_inv self.
Proof.
  unfold Server_init, py_index, py_del. cbv zeta.
  set (j := if 0 <=? server_index then server_index
            else Z.of_nat (length servers0) + server_index).
  destruct ((0 <=? j) && (j <? Z.of_nat (length servers0))) eqn:Hj;
    [|discriminate].
  apply andb_prop in Hj as [Hj0 Hj1].
  apply Z.leb_le in Hj0. apply Z.ltb_lt in Hj1.
  destruct (servers0 !! Z.to_nat j) as [id0|] eqn:Hid; [|discriminate].
  simpl. intros [= <-]. constructor; simpl.
  - rewrite length_delete by eauto. do 2 f_equal. lia.
  - discriminate.
  - constructor.
Qed.

Lemma handle_append_entry_request_inv self request :
  replica_inv self ->
  replica_inv (fst (handle_append_entry_request self request)).
Proof.
  intros Hinv. apply (replica_inv_frame self); try assumption;
    unfold handle_append_entry_request; case_split;
    try reflexivity; try discriminate;
    solve [apply Hinv | intros Hr; apply Hinv; assumption].
Qed.

Lemma handle_vote_request_inv self request :
  replica_inv self -> replica_inv (fst (handle_vote_request self request)).
Proof.
  intros Hinv. apply (replica_inv_frame self); try assumption;
    unfold handle_vote_request; case_split;
    try reflexivity;
    solve [apply Hinv | intros Hr; apply Hinv; assumption].
Qed.

Lemma check_response_term_inv self response_term :
  replica_inv self ->
  replica_inv (fst (check_response_term self response_term)).
Proof.
  intros Hinv.
  destruct (check_response_term_cases self response_term) as [[_ ->] | ->];
    [exact Hinv|].
  apply (replica_inv_frame self); simpl; try reflexivity; try assumption;
    [discriminate | apply Hinv].
Qed.

Lemma check_response_term_servers self response_term :
  servers (fst (check_response_term self response_term)) = servers self.
Proof.
  destruct (check_response_term_cases self response_term) as [[_ ->] | ->];
    reflexivity.
Qed.

Lemma try_leader_commit_inv self index :
  replica_inv self -> replica_inv (fst (try_leader_commit self index)).
Proof.
  intros Hinv. apply (replica_inv_frame self); try assumption;
    unfold try_leader_commit; case_split;
    try reflexivity;
    solve [apply Hinv | intros Hr; apply Hinv; assumption].
Qed.

Lemma become_leader_inv self :
  replica_inv self -> servers self <> [] -> replica_inv (become_leader self).
Proof.
  intros Hinv Hpeers.
  apply (replica_inv_frame self); simpl; try reflexivity; try assumption.
  - intros _. apply dict_zip_const_nonempty. exact Hpeers.
  - unfold next_indexes_positive. simpl.
    apply (dict_zip_const_Forall (fun v => 1 <= v)).
    pose proof (len_nonneg (log self)). lia.
Qed.

Lemma request_votes_inv transport peers : forall self votes,
  replica_inv self -> (peers <> [] -> servers self <> []) ->
  replica_inv (fst (request_votes transport self peers votes)).
Proof.
  induction peers as [|server rest IH]; intros self votes Hinv Hpeers;
    simpl; [exact Hinv|].
  assert (Hne : servers self <> []) by (apply Hpeers; discriminate).
  destruct (Log.get_item_term _ _) as [last_log_term|e]; simpl;
    [|exact Hinv].
  destruct (transport server _) as [vote|]; [|apply IH; auto].
  pose proof (check_response_term_inv self (rvr_term vote) Hinv) as Hinv1.
  pose proof (check_response_term_servers self (rvr_term vote)) as Hs1.
  set (self1 := fst (check_response_term self (rvr_term vote))) in *.
  assert (Hne1 : servers self1 <> []) by (rewrite Hs1; exact Hne).
  destruct (role self1); simpl; try exact Hinv1;
    destruct (_ >=? majority self1); simpl;
    solve [apply become_leader_inv; assumption | apply IH; auto].
Qed.

Lemma do_elections_inv transport self :
  replica_inv self -> replica_inv (fst (do_elections transport self)).
Proof.
  intros Hinv.
  assert (Hflag : replica_inv (set_talked_to_leader None self)).
  { apply (replica_inv_frame self); simpl; try reflexivity; try assumption;
      apply Hinv. }
  assert (Hcand : replica_inv (set_current_term (current_term self + 1)
                                 (set_role CANDIDATE self))).
  { apply (replica_inv_frame self); simpl; try reflexivity; try assumption;
      [discriminate | apply Hinv]. }
  unfold do_elections.
  destruct (role self); simpl; try exact Hinv;
    destruct (flag_set (talked_to_leader self)); simpl; try exact Hflag;
    apply request_votes_inv; try exact Hcand; simpl;
    intros Hne; exact Hne.
Qed.

Lemma client_append_inv self entry0 :
  replica_inv self -> replica_inv (fst (client_append self entry0)).
Proof.
  intros Hinv. unfold client_append.
  destruct (role self) eqn:Hrole; simpl; try exact Hinv.
  apply (replica_inv_frame self); simpl; try reflexivity; try assumption;
    [intros _; apply Hinv; exact Hrole | apply Hinv].
Qed.

(** With honest replies the exchange never trips the assertion and keeps
    the invariant. *)
Lemma append_entry_to_follower_inv transport self follower_server :
  honest transport -> replica_inv self ->
  snd (append_entry_to_follower transport self follower_server)
  <> Raise AssertionError /\
  replica_inv (fst (append_entry_to_follower transport self follower_server)).
Proof.
  intros Hhonest Hinv. unfold append_entry_to_follower.
  destruct (dict_get _ _) as [next_index|] eqn:Hget; simpl;
    [|split; [discriminate | exact Hinv]].
  assert (Hpos : 1 <= next_index).
  { apply (dict_get_Forall (fun v => 1 <= v) _ _ _ (inv_next _ Hinv) Hget). }
  destruct (append_entries_request self next_index) as [request|e] eqn:Hreq;
    simpl.
  2: { split; [|exact Hinv]. intros [= ->].
       unfold append_entries_request, Log.get_item_term, Log.get_item,
         py_index in Hreq.
       revert Hreq. case_split; discriminate. }
  destruct (transport follower_server request) as [result|] eqn:Hreply;
    simpl; [|split; [discriminate | exact Hinv]].
  pose proof (check_response_term_inv self (aer_term result) Hinv) as Hinv1.
  destruct (check_response_term_cases self (aer_term result))
    as [[Hterm Hc] | Hc]; rewrite Hc in *; simpl in *;
    [|split; [discriminate | exact Hinv1]].
  destruct (aer_success result) eqn:Hsuccess; simpl.
  - destruct (truthy (ae_entry request)); simpl;
      [|split; [discriminate | exact Hinv]].
    split; [discriminate|]. apply try_leader_commit_inv.
    apply (replica_inv_frame self); simpl; try reflexivity; try assumption.
    + intros _. apply dict_set_nonempty.
    + unfold next_indexes_positive. simpl.
      apply (dict_set_Forall (fun v => 1 <= v)); [apply Hinv | lia].
  - pose proof (honest_refusal_has_previous_entry _ _ _ _ _ _
                  Hhonest Hpos Hreq Hreply Hsuccess Hterm) as Hprev.
    assert (Hgt : (next_index - 1 >? 0) = true)
      by (apply Z.gtb_lt; lia).
    rewrite Hgt. simpl. split; [discriminate|].
    apply (replica_inv_frame self); simpl; try reflexivity; try assumption.
    + apply Hinv.
    + unfold next_indexes_positive. simpl.
      apply (dict_set_Forall (fun v => 1 <= v)); [apply Hinv | lia].
Qed.

Lemma step_inv self self' :
  step self self' -> replica_inv self -> replica_inv self'.
Proof.
  destruct 1; intros Hinv.
  - apply handle_append_entry_request_inv, Hinv.
  - apply handle_vote_request_inv, Hinv.
  - apply do_elections_inv, Hinv.
  - apply client_append_inv, Hinv.
  - apply append_entry_to_follower_inv; assumption.
Qed.

Lemma reachable_inv self : reachable self -> replica_inv self.
Proof.
  induction 1 as [servers0 server_index self Hinit | self self' _ IH Hstep].
  - exact (Server_init_inv _ _ _ Hinit).
  - exact (step_inv _ _ Hstep IH).
Qed.

End Invariants.

(** ** Reachable replicas *)

Lemma reachable_elected : reachable elected.
Proof.
  apply (reachable_step fresh); [exact reachable_fresh|].
  exact (step_elections fresh grant_all).
Qed.

(** The first scenario of the cluster of three: the elected replica takes a
    client entry, ships it to a fresh follower and commits it. *)
Example elected_replicates_and_commits :
  let self1 := fst (client_append elected a1) in
  let out := append_entry_to_follower (deliver_to fresh) self1 "5001" in
  role elected = LEADER /\
  followers_next_indexes elected = [("5001"%string, 1); ("5002"%string, 1)] /\
  snd out = Ret (Some 2) /\
  followers_match_indexes (fst out) = [("5001"%string, 1); ("5002"%string, 0)] /\
  commit_index (fst out) = 1.
Proof. repeat split. Qed.

Lemma reachable_veteran : reachable veteran.
Proof.
  unfold veteran.
  repeat (eapply reachable_step; [|apply step_elections]).
  eapply reachable_step; [exact reachable_fresh | apply step_append_entries].
Qed.

(** The leader backs off when the follower lacks the previous entry: next
    index 2 becomes 1. *)
Example veteran_backs_off :
  let out := append_entry_to_follower (deliver_to fresh) veteran "5001" in
  role veteran = LEADER /\
  followers_next_indexes veteran = [("5001"%string, 2); ("5002"%string, 2)] /\
  snd out = Ret (Some 1) /\
  followers_next_indexes (fst out) = [("5001"%string, 1); ("5002"%string, 2)].
Proof. repeat split. Qed.

(** Honesty of the replies is needed: a refusal made up for next index 1
    drives the index to 0 and fails the assertion. *)
Example made_up_refusal_fails_assertion :
  let out := append_entry_to_follower refuse_all elected "5001" in
  snd out = Raise AssertionError /\
  dict_get (followers_next_indexes (fst out)) "5001" = Some 0.
Proof. split; reflexivity. Qed.

(** A replica alone in its cluster never becomes leader: the election loop
    has no peer to ask, so the vote count is never compared. *)
Lemma single_replica_never_elected (transport : request_vote_transport)
    (self : Server) :
  servers self = [] -> role self <> LEADER ->
  role (fst (do_elections transport self)) <> LEADER.
Proof.
  intros Hs Hrole. unfold do_elections.
  destruct (role self) eqn:Hr; try congruence;
    destruct (flag_set (talked_to_leader self)); simpl;
    rewrite ?Hs, ?Hr; simpl; discriminate.
Qed.

(** C4: in every reachable state in which the replica is leader, [majority]
    is [floor(N/2) + 1] for the [N] replicas of the cluster, and
    [try_leader_commit(i)] with [commit_index < i] sets [commit_index] to [i]
    and returns true exactly when the replicas whose match index is at least
    [i], the leader counted as one, number at least [majority]; otherwise it
    returns false and changes nothing.  With [commit_index >= i] it returns
    true and changes nothing. *)
Theorem try_leader_commit_majority (self : Server) (index : Z) :
  reachable self -> role self = LEADER ->
  majority self = Z.of_nat (length (servers self) + 1) / 2 + 1 /\
  (commit_index self < index ->
   try_leader_commit self index =
     if majority self <=? replicated_count self index
     then (set_commit_index index self, true)
     else (self, false)) /\
  (index <= commit_index self -> try_leader_commit self index = (self, true)).
Proof.
  intros Hreach Hleader.
  pose proof (reachable_inv self Hreach) as Hinv.
  split; [apply Hinv|]. split.
  - apply try_leader_commit_count. apply Hinv. exact Hleader.
  - apply try_leader_commit_already.
Qed.

Lemma try_leader_commit_majority_witness :
  majority elected = Z.of_nat (length (servers elected) + 1) / 2 + 1 /\
  (commit_index elected < 1 ->
   try_leader_commit elected 1 =
     if majority elected <=? replicated_count elected 1
     then (set_commit_index 1 elected, true)
     else (elected, false)) /\
  (1 <= commit_index elected -> try_leader_commit elected 1 = (elected, true)).
Proof.
  apply (try_leader_commit_majority elected 1).
  - exact reachable_elected.
  - reflexivity.
Defined.

(** C9: in every reachable state, with replies produced by followers running
    the AppendEntries handler on the request sent, [append_entry_to_follower]
    never fails its assertion: a reply with [success == False] and a term not
    above the leader's only comes back when the follower's next index is at
    least 2, and every next index is at least 1 before and after the call. *)
Theorem next_index_never_zero (transport : append_entries_transport)
    (self : Server) (follower_server : string) :
  reachable self -> honest transport ->
  let out := append_entry_to_follower transport self follower_server in
  snd out <> Raise AssertionError /\
  next_indexes_positive self /\
  next_indexes_positive (fst out) /\
  (forall next_index request result,
     dict_get (followers_next_indexes self) follower_server = Some next_index ->
     append_entries_request self next_index = Ret request ->
     transport follower_server request = Some result ->
     aer_success result = false ->
     aer_term result <= current_term self ->
     2 <= next_index).
Proof.
  intros Hreach Hhonest out.
  pose proof (reachable_inv self Hreach) as Hinv.
  destruct (append_entry_to_follower_inv transport self follower_server
              Hhonest Hinv) as [Hassert Hinv'].
  split; [exact Hassert|]. split; [apply Hinv|]. split; [apply Hinv'|].
  intros next_index request result Hget Hreq Hreply Hfail Hterm.
  apply (honest_refusal_has_previous_entry transport self follower_server
           next_index request result); try assumption.
  apply (dict_get_Forall (fun v => 1 <= v) _ _ _ (inv_next _ Hinv) Hget).
Qed.

Lemma next_index_never_zero_witness :
  let out := append_entry_to_follower (deliver_to fresh) veteran "5001" in
  snd out <> Raise AssertionError /\
  next_indexes_positive veteran /\
  next_indexes_positive (fst out) /\
  (forall next_index request result,
     dict_get (followers_next_indexes veteran) "5001" = Some next_index ->
     append_entries_request veteran next_index = Ret request ->
     deliver_to fresh "5001" request = Some result ->
     aer_success result = false ->
     aer_term result <= current_term veteran ->
     2 <= next_index).
Proof.
  apply (next_index_never_zero (deliver_to fresh) veteran "5001").
  - exact reachable_veteran.
  - exact (honest_deliver_to fresh).
Defined.


(** * Further properties *)

(** ** Reading and appending *)

Lemma log_read_in_range (l : Log.t) (i : Z) :
  1 <= i <= Log.len l ->
  exists x, l !! Z.to_nat (i - 1) = Some x /\
    Log.get_item l i = Ret (entry x) /\ Log.get_item_term l i = Ret (term x).
Proof.
  intros Hi. destruct (py_index_in_range l (i - 1)) as (x & Hx & Hpy).
  { unfold Log.len in Hi. lia. }
  exists x. split; [exact Hx|].
  unfold Log.get_item, Log.get_item_term.
  assert (E1 : (Log.len l + 1 =? i) = false) by (apply Z.eqb_neq; lia).
  assert (E2 : (i =? 0) = false) by (apply Z.eqb_neq; lia).
  rewrite E1, E2, Hpy. split; reflexivity.
Qed.

Lemma len_append_item (l : Log.t) (t : Z) (e : json) :
  Log.len (snd (Log.append_item l t e)) = Log.len l + 1.
Proof. unfold Log.append_item, Log.len. simpl. rewrite length_app. simpl. lia. Qed.

(** X1: [append_item] returns the index [len + 1]; the new log has that
    length, reads back the appended payload and term at the returned index,
    answers [None] one past it, and reads every older index as before. *)
Theorem append_item_round_trip (l : Log.t) (t : Z) (e : json) :
  let k := fst (Log.append_item l t e) in
  let l' := snd (Log.append_item l t e) in
  k = Log.len l + 1 /\ Log.len l' = k /\
  Log.get_item l' k = Ret e /\ Log.get_item_term l' k = Ret t /\
  Log.get_item l' (k + 1) = Ret JNull /\
  (forall i, 1 <= i <= Log.len l ->
     Log.get_item l' i = Log.get_item l i /\
     Log.get_item_term l' i = Log.get_item_term l i).
Proof.
  intros k l'. pose proof (len_append_item l t e) as Hlen. fold l' in Hlen.
  pose proof (len_nonneg l) as Hnn.
  assert (Hk : k = Log.len l + 1) by (subst k; simpl; exact Hlen).
  assert (Hl' : l' = l ++ [{| term := t; entry := e |}]) by reflexivity.
  split; [exact Hk|]. split; [lia|].
  destruct (log_read_in_range l' k) as (x & Hx & Hitem & Hterm); [lia|].
  assert (x = {| term := t; entry := e |}) as ->.
  { rewrite Hl' in Hx. rewrite Hk in Hx. unfold Log.len in Hx.
    replace (Z.to_nat (Z.of_nat (length l) + 1 - 1)) with (length l + 0)%nat
      in Hx by lia.
    rewrite lookup_app_r in Hx by lia.
    replace (length l + 0 - length l)%nat with 0%nat in Hx by lia.
    simpl in Hx. congruence. }
  split; [exact Hitem|]. split; [exact Hterm|]. split.
  - unfold Log.get_item. rewrite Hlen, Hk, Z.eqb_refl. reflexivity.
  - intros i Hi.
    destruct (log_read_in_range l i) as (y & Hy & -> & ->); [lia|].
    destruct (log_read_in_range l' i) as (y' & Hy' & -> & ->); [lia|].
    rewrite Hl', lookup_app_l in Hy' by (unfold Log.len in Hi; lia).
    assert (y' = y) as -> by congruence. split; reflexivity.
Qed.

(** X2: reads past the end raise [IndexError]: [get_item] beyond [len + 1]
    and [get_item_term] beyond [len]. *)
Theorem log_read_past_end (l : Log.t) (i : Z) :
  (Log.len l + 1 < i -> Log.get_item l i = Raise IndexError) /\
  (Log.len l < i -> Log.get_item_term l i = Raise IndexError).
Proof.
  pose proof (len_nonneg l) as Hnn. unfold Log.len in *.
  assert (Hpy : Z.of_nat (length l) < i -> py_index l (i - 1) = Raise IndexError).
  { intros Hi. unfold py_index. cbv zeta.
    assert (E1 : (0 <=? i - 1) = true) by (apply Z.leb_le; lia).
    assert (E2 : (i - 1 <? Z.of_nat (length l)) = false)
      by (apply Z.ltb_ge; lia).
    rewrite !E1, E2. reflexivity. }
  split; intros Hi.
  - unfold Log.get_item, Log.len.
    assert (E : (Z.of_nat (length l) + 1 =? i) = false)
      by (apply Z.eqb_neq; lia).
    rewrite E, Hpy by lia. reflexivity.
  - unfold Log.get_item_term.
    assert (E : (i =? 0) = false) by (apply Z.eqb_neq; lia).
    rewrite E, Hpy by lia. reflexivity.
Qed.

(** X3: index 0 is the position before the first entry only for
    [get_item_term]; [get_item(0)] reads [log[-1]], the payload of the last
    entry, and raises [IndexError] on an empty log. *)
Theorem get_item_zero_reads_last (l : Log.t) :
  Log.get_item_term l 0 = Ret 0 /\
  Log.get_item l 0 =
    match last l with
    | Some x => Ret (entry x)
    | None => Raise IndexError
    end.
Proof.
  split; [reflexivity|].
  unfold Log.get_item, Log.len.
  assert (E : (Z.of_nat (length l) + 1 =? 0) = false)
    by (apply Z.eqb_neq; lia).
  rewrite E. rewrite last_lookup. unfold py_index. cbv zeta.
  change (0 <=? 0 - 1) with false. cbv iota.
  destruct l as [|x0 l0].
  - reflexivity.
  - assert (E1 : (0 <=? Z.of_nat (length (x0 :: l0)) + (0 - 1)) = true)
      by (apply Z.leb_le; simpl length; lia).
    assert (E2 : (Z.of_nat (length (x0 :: l0)) + (0 - 1)
                  <? Z.of_nat (length (x0 :: l0))) = true)
      by (apply Z.ltb_lt; lia).
    rewrite E1, E2. cbv [andb].
    replace (Z.to_nat (Z.of_nat (length (x0 :: l0)) + (0 - 1)))
      with (pred (length (x0 :: l0))) by (simpl length; lia).
    destruct ((x0 :: l0) !! pred (length (x0 :: l0))) eqn:Hx; [reflexivity|].
    apply lookup_ge_None_1 in Hx. simpl in Hx. lia.
Qed.

(** ** Repairing the log *)

Lemma sync_at_item_cuts_suffix (l : Log.t) (i t : Z) :
  match Log.sync_at_item l i t with
  | Ret (_, l') => l' `prefix_of` l
  | Raise e => e = IndexError /\ i < 0
  end.
Proof.
  assert (Hslice : forall k, py_slice_to l k `prefix_of` l).
  { intros k. unfold py_slice_to. destruct (0 <=? k); apply prefix_take. }
  destruct (Z.ltb_spec (Log.len l) i) as [Hlt | Hge].
  - unfold Log.sync_at_item. apply Z.ltb_lt in Hlt. rewrite Hlt. reflexivity.
  - destruct (Z.eq_dec i 0) as [-> | Hne].
    + rewrite sync_at_item_0. destruct (t =? 0); [apply prefix_nil|].
      apply Hslice.
    + destruct (Z.le_gt_cases 1 i) as [Hpos | Hneg].
      * destruct (sync_at_item_in_range l i t) as (e & _ & ->); [lia|].
        destruct (term e =? t); apply prefix_take.
      * unfold Log.sync_at_item, Log.get_item_term.
        apply Z.ltb_ge in Hge. rewrite Hge.
        assert (E : (i =? 0) = false) by (apply Z.eqb_neq; lia).
        rewrite E. cbv [negb].
        unfold py_index. cbv zeta.
        destruct (_ && _); [|simpl; split; [reflexivity | lia]].
        destruct (l !! _) as [x|]; simpl;
          [|split; [reflexivity | lia]].
        destruct (term x =? t); simpl; apply Hslice.
Qed.

(** X4: [sync_at_item] only ever cuts a suffix off: whatever it answers, the
    log left behind is a prefix of the log before.  It raises only
    [IndexError], and only for a negative index. *)
Theorem sync_at_item_keeps_prefix (l : Log.t) (i t : Z) :
  match Log.sync_at_item l i t with
  | Ret (_, l') => l' `prefix_of` l
  | Raise e => e = IndexError /\ i < 0
  end.
Proof. exact (sync_at_item_cuts_suffix l i t). Qed.

(** X5: a refusal at an index [i >= 1] leaves fewer than [i] entries: either
    the log was too short and is untouched, or the conflicting entry and all
    that followed are gone and [i - 1] entries remain. *)
Theorem sync_at_item_refusal_shortens (l l' : Log.t) (i t : Z) :
  1 <= i ->
  Log.sync_at_item l i t = Ret (false, l') ->
  Log.len l' < i /\
  ((l' = l /\ Log.len l < i) \/ (Log.len l' = i - 1 /\ 2 <= i <= Log.len l)).
Proof.
  intros Hi Hsync.
  destruct (Z.ltb_spec (Log.len l) i) as [Hlt | Hge].
  - unfold Log.sync_at_item in Hsync.
    assert (E : (Log.len l <? i) = true) by (apply Z.ltb_lt; lia).
    rewrite E in Hsync. injection Hsync as <-. split; [lia|]. left. auto.
  - destruct (sync_at_item_in_range l i t) as (e & _ & Heq); [lia|].
    rewrite Heq in Hsync. destruct (term e =? t); [discriminate|].
    injection Hsync as Hz <-. apply Z.eqb_neq in Hz.
    assert (Hlen : Log.len (take (Z.to_nat (i - 1)) l) = i - 1).
    { unfold Log.len in *. rewrite length_take_le by lia. lia. }
    split; [lia|]. right. split; [exact Hlen | lia].
Qed.

Lemma sync_at_item_refusal_shortens_witness :
  Log.len [{| term := 1; entry := a2 |}] < 2 /\
  (([{| term := 1; entry := a2 |}]
    = [{| term := 1; entry := a2 |}; {| term := 1; entry := a3 |}] /\
    Log.len [{| term := 1; entry := a2 |}; {| term := 1; entry := a3 |}] < 2)
   \/ (Log.len [{| term := 1; entry := a2 |}] = 2 - 1 /\
       2 <= 2
       <= Log.len [{| term := 1; entry := a2 |}; {| term := 1; entry := a3 |}])).
Proof.
  apply (sync_at_item_refusal_shortens
           [{| term := 1; entry := a2 |}; {| term := 1; entry := a3 |}]
           [{| term := 1; entry := a2 |}] 2 2).
  - lia.
  - reflexivity.
Defined.

(** X6: for an index [i >= 1], [sync_at_item(i, t)] answers true exactly when
    the log reaches index [i] and either the entry there has term [t] or
    [i = 1]. *)
Theorem sync_at_item_true_iff (l : Log.t) (i t : Z) :
  1 <= i ->
  (exists l', Log.sync_at_item l i t = Ret (true, l')) <->
  (i <= Log.len l /\ (i = 1 \/ Log.get_item_term l i = Ret t)).
Proof.
  intros Hi. split.
  - intros [l' Hsync].
    destruct (Z.ltb_spec (Log.len l) i) as [Hlt | Hge].
    + unfold Log.sync_at_item in Hsync.
      assert (E : (Log.len l <? i) = true) by (apply Z.ltb_lt; lia).
      rewrite E in Hsync. discriminate.
    + split; [exact Hge|].
      destruct (sync_at_item_in_range l i t) as (e & He & Heq); [lia|].
      destruct (log_read_in_range l i) as (x & Hx & _ & Hterm); [lia|].
      assert (x = e) as -> by congruence.
      rewrite Heq in Hsync. destruct (Z.eqb_spec (term e) t) as [<- | Hne].
      * right. exact Hterm.
      * injection Hsync as Hz _. apply Z.eqb_eq in Hz. left. lia.
  - intros [Hlen Hcase].
    destruct (sync_at_item_in_range l i t) as (e & He & Heq); [lia|].
    destruct (log_read_in_range l i) as (x & Hx & _ & Hterm); [lia|].
    assert (x = e) as -> by congruence.
    rewrite Heq. destruct (Z.eqb_spec (term e) t) as [<- | Hne]; [eauto|].
    destruct Hcase as [-> | Hread]; [simpl; eauto|].
    rewrite Hterm in Hread. congruence.
Qed.

Lemma sync_at_item_true_iff_witness :
  (exists l', Log.sync_at_item
                [{| term := 1; entry := a1 |}; {| term := 1; entry := a2 |}]
                2 1 = Ret (true, l')) <->
  (2 <= Log.len [{| term := 1; entry := a1 |}; {| term := 1; entry := a2 |}]
   /\ (2 = 1 \/
       Log.get_item_term
         [{| term := 1; entry := a1 |}; {| term := 1; entry := a2 |}] 2
       = Ret 1)).
Proof.
  apply (sync_at_item_true_iff
           [{| term := 1; entry := a1 |}; {| term := 1; entry := a2 |}] 2 1).
  lia.
Defined.

(** ** Construction of a replica *)

Lemma delete_NoDup_not_elem {A} (l : list A) : forall (j : nat) (x : A),
  NoDup l -> l !! j = Some x -> x ∉ delete j l.
Proof.
  induction l as [|y l IH]; intros j x Hnd Hx; [discriminate|].
  apply NoDup_cons in Hnd as [Hy Hnd].
  destruct j as [|j]; simpl in *.
  - injection Hx as <-. exact Hy.
  - intros Hin. apply elem_of_cons in Hin as [-> | Hin].
    + apply Hy. apply list_elem_of_lookup. eauto.
    + exact (IH j x Hnd Hx Hin).
Qed.


(** X8: in every reachable state [majority] is a strict majority of the
    cluster of [N = len(servers) + 1] replicas and can be reached:
    [majority <= N < 2 * majority]. *)
Theorem majority_is_strict (self : Server) :
  reachable self ->
  majority self <= Z.of_nat (length (servers self)) + 1 < 2 * majority self.
Proof.
  intros Hreach. rewrite (inv_majority _ (reachable_inv self Hreach)).
  replace (Z.of_nat (length (servers self) + 1))
    with (Z.of_nat (length (servers self)) + 1) by lia.
  set (N := Z.of_nat (length (servers self)) + 1).
  assert (1 <= N) by (subst N; lia).
  pose proof (Z.div_mod N 2 ltac:(lia)) as Hdiv.
  pose proof (Z.mod_pos_bound N 2 ltac:(lia)) as Hmod.
  lia.
Qed.

Lemma majority_is_strict_witness :
  majority elected <= Z.of_nat (length (servers elected)) + 1
  < 2 * majority elected.
Proof.
  apply (majority_is_strict elected). exact reachable_elected.
Defined.

(** ** Vote requests *)

Lemma get_item_term_last (l : Log.t) :
  Log.get_item_term l (Log.len l) = Ret (last_log_term l).
Proof.
  unfold last_log_term. rewrite last_lookup.
  destruct l as [|x0 l0]; [reflexivity|].
  destruct (log_read_in_range (x0 :: l0) (Log.len (x0 :: l0)))
    as (x & Hx & _ & ->).
  { unfold Log.len. simpl length. lia. }
  replace (Z.to_nat (Log.len (x0 :: l0) - 1)) with (pred (length (x0 :: l0)))
    in Hx by (unfold Log.len; simpl length; lia).
  rewrite Hx. reflexivity.
Qed.

Lemma handle_vote_request_eq (self : Server) (request : VoteRequest) :
  handle_vote_request self request =
    (if vote_granted self request
     then set_voted_for (Some (rv_candidateId request)) self
     else self,
     Ret {| rvr_term := current_term self;
            rvr_voteGranted := vote_granted self request |}).
Proof.
  unfold handle_vote_request, vote_granted.
  rewrite get_item_term_last.
  rewrite !Z.gtb_ltb. rewrite !Z.leb_antisym.
  destruct (rv_term request <? current_term self); [reflexivity|].
  destruct (voted_for_other _ _); [reflexivity|].
  destruct (rv_lastLogTerm request <? last_log_term (log self));
    [reflexivity|].
  destruct (rv_lastLogIndex request <? Log.len (log self)); reflexivity.
Qed.

(** X9: [handle_vote_request] never raises, always answers with the
    replica's own [current_term], and grants exactly when the request's term
    is not below [current_term], no vote is held for another candidate, the
    candidate's last term is not below the term of the last entry and its
    last index is not below the log length.  A refusal changes nothing; a
    grant changes [voted_for] and nothing else. *)
Theorem handle_vote_request_closed_form (self : Server) (request : VoteRequest) :
  handle_vote_request self request =
    (if vote_granted self request
     then set_voted_for (Some (rv_candidateId request)) self
     else self,
     Ret {| rvr_term := current_term self;
            rvr_voteGranted := vote_granted self request |}).
Proof. exact (handle_vote_request_eq self request). Qed.

(** X10: a vote request that was granted is granted again when it arrives a
    second time, and the second handling leaves the replica as the first
    did. *)
Theorem handle_vote_request_repeat (self : Server) (request : VoteRequest) :
  vote_granted self request = true ->
  let self' := fst (handle_vote_request self request) in
  handle_vote_request self' request =
    (self', Ret {| rvr_term := current_term self; rvr_voteGranted := true |}).
Proof.
  intros Hgranted self'. subst self'.
  rewrite (handle_vote_request_eq self request), Hgranted. simpl.
  rewrite handle_vote_request_eq.
  assert (Hagain : vote_granted
                     (set_voted_for (Some (rv_candidateId request)) self)
                     request = true).
  { unfold vote_granted in *. simpl.
    apply andb_prop in Hgranted as [Hgranted H4].
    apply andb_prop in Hgranted as [Hgranted H3].
    apply andb_prop in Hgranted as [H1 _].
    rewrite H1, H3, H4, String.eqb_refl, andb_false_r. reflexivity. }
  rewrite Hagain. reflexivity.
Qed.

Lemma handle_vote_request_repeat_witness :
  let self' := fst (handle_vote_request fresh (vote_request 1 "5001" 0 0)) in
  handle_vote_request self' (vote_request 1 "5001" 0 0) =
    (self', Ret {| rvr_term := current_term fresh; rvr_voteGranted := true |}).
Proof.
  apply (handle_vote_request_repeat fresh (vote_request 1 "5001" 0 0)).
  reflexivity.
Defined.

(** ** AppendEntries requests *)

(** The state an accepted request leaves, given what the log check
    answered. *)
Lemma handle_append_entry_request_accepted (self : Server)
    (request : AppendEntriesRequest) (l1 : Log.t) :
  current_term self <= ae_term request ->
  Log.sync_at_item (log self) (ae_prevLogIndex request)
    (ae_prevLogTerm request) = Ret (true, l1) ->
  let log2 :=
    if truthy (ae_entry request)
    then l1 ++ [{| term := ae_term request; entry := ae_entry request |}]
    else l1 in
  handle_append_entry_request self request =
    ({| id := id self; servers := servers self; majority := majority self;
        role := FOLLOWER; talked_to_leader := Some true;
        current_term := ae_term request; voted_for := None; log := log2;
        leader_id := Some (ae_leaderId request);
        commit_index :=
          if ae_leaderCommit request >? commit_index self
          then Z.min (ae_leaderCommit request) (Log.len log2)
          else commit_index self;
        last_applied := last_applied self;
        followers_next_indexes := followers_next_indexes self;
        followers_match_indexes := followers_match_indexes self |},
     Ret {| aer_term := current_term self; aer_success := true |}).
Proof.
  intros Hterm Hsync log2. subst log2. unfold handle_append_entry_request.
  apply Z.ltb_ge in Hterm. rewrite Hterm. simpl. rewrite Hsync. simpl.
  destruct (truthy (ae_entry request)); simpl;
    destruct (ae_leaderCommit request >? commit_index self); reflexivity.
Qed.

(** The log check answers the same on the log an accepted request left. *)
Lemma sync_at_item_again (l l1 : Log.t) (i t : Z) (tail : Log.t) :
  Log.sync_at_item l i t = Ret (true, l1) ->
  Log.len l1 = i ->
  (length tail <= 1)%nat ->
  Log.sync_at_item (l1 ++ tail) i t = Ret (true, l1).
Proof.
  intros Hsync Hlen Htail. pose proof (len_nonneg l1) as Hnn.
  destruct (Z.eq_dec i 0) as [-> | Hne].
  - destruct l1; [|unfold Log.len in Hlen; simpl in Hlen; lia].
    rewrite sync_at_item_0. destruct (t =? 0); [reflexivity|].
    destruct tail as [|x [|y tail]]; try reflexivity. simpl in Htail. lia.
  - assert (Hi : 1 <= i <= Log.len l).
    { split; [lia|]. destruct (Z.ltb_spec (Log.len l) i) as [Hlt|]; [|lia].
      unfold Log.sync_at_item in Hsync. apply Z.ltb_lt in Hlt.
      rewrite Hlt in Hsync. discriminate. }
    destruct (sync_at_item_in_range l i t Hi) as (e & He & Heq).
    rewrite Heq in Hsync.
    destruct (term e =? t) eqn:Et.
    2: { injection Hsync as _ <-. unfold Log.len in *.
         rewrite length_take_le in Hlen by lia. lia. }
    injection Hsync as <-.
    assert (Hl1 : length (take (Z.to_nat i) l) = Z.to_nat i).
    { unfold Log.len in *. rewrite length_take_le by lia. reflexivity. }
    destruct (sync_at_item_in_range (take (Z.to_nat i) l ++ tail) i t)
      as (e' & He' & ->).
    { unfold Log.len. rewrite length_app, Hl1. lia. }
    rewrite lookup_app_l, lookup_take_lt in He' by lia.
    assert (e' = e) as -> by congruence.
    rewrite Et. rewrite take_app_length' by (symmetry; exact Hl1).
    reflexivity.
Qed.

(** X11: a duplicated AppendEntries request is harmless when the previous
    entry matched.  If a request is accepted and the log check left exactly
    [prevLogIndex] entries, handling the same request again succeeds and
    leaves the replica exactly as the first handling did; only the term in
    the reply differs, now the request's term. *)
Theorem handle_append_entry_request_repeat (self : Server)
    (request : AppendEntriesRequest) (l1 : Log.t) :
  current_term self <= ae_term request ->
  Log.sync_at_item (log self) (ae_prevLogIndex request)
    (ae_prevLogTerm request) = Ret (true, l1) ->
  Log.len l1 = ae_prevLogIndex request ->
  let self' := fst (handle_append_entry_request self request) in
  handle_append_entry_request self' request =
    (self', Ret {| aer_term := ae_term request; aer_success := true |}).
Proof.
  intros Hterm Hsync Hlen self'. subst self'.
  rewrite (handle_append_entry_request_accepted self request l1 Hterm Hsync).
  cbv zeta. simpl fst.
  set (log2 := if truthy (ae_entry request) then _ else l1).
  assert (Hsync2 : Log.sync_at_item log2 (ae_prevLogIndex request)
                     (ae_prevLogTerm request) = Ret (true, l1)).
  { subst log2. destruct (truthy (ae_entry request)).
    - apply (sync_at_item_again (log self)); simpl; auto.
    - rewrite <- (app_nil_r l1) at 1.
      apply (sync_at_item_again (log self)); simpl; auto with arith. }
  match goal with
  | |- handle_append_entry_request ?s _ = _ =>
      rewrite (handle_append_entry_request_accepted s request l1)
  end; simpl; [|lia|exact Hsync2].
  subst log2.
  repeat match goal with
         | |- context [?a >? ?b] => destruct (Z.gtb_spec a b)
         end; try reflexivity; lia.
Qed.

Lemma handle_append_entry_request_repeat_witness :
  let self' := fst (handle_append_entry_request fresh
                      (append_request 1 "5001" 0 0 a1 1)) in
  handle_append_entry_request self' (append_request 1 "5001" 0 0 a1 1) =
    (self', Ret {| aer_term := ae_term (append_request 1 "5001" 0 0 a1 1);
                   aer_success := true |}).
Proof.
  apply (handle_append_entry_request_repeat fresh
           (append_request 1 "5001" 0 0 a1 1) []).
  - simpl. lia.
  - reflexivity.
  - reflexivity.
Defined.

(** X12: a negative [prevLogIndex] that does not reach back into the log
    makes the handler raise [IndexError], but only after the replica has
    turned follower, adopted the request's term and leader and dropped its
    vote; log and commit index are untouched. *)
Theorem handle_append_entry_request_negative_index (self : Server)
    (request : AppendEntriesRequest) :
  current_term self <= ae_term request ->
  ae_prevLogIndex request < 0 ->
  ae_prevLogIndex request <= - Log.len (log self) ->
  handle_append_entry_request self request =
    (set_voted_for None
       (set_current_term (ae_term request)
          (set_leader_id (Some (ae_leaderId request))
             (set_talked_to_leader (Some true) (set_role FOLLOWER self)))),
     Raise IndexError).
Proof.
  intros Hterm Hneg Hfar. unfold handle_append_entry_request.
  apply Z.ltb_ge in Hterm. rewrite Hterm. simpl.
  pose proof (len_nonneg (log self)) as Hnn.
  unfold Log.sync_at_item, Log.get_item_term, py_index. cbv zeta.
  assert (E1 : (Log.len (log self) <? ae_prevLogIndex request) = false)
    by (apply Z.ltb_ge; lia).
  assert (E2 : (ae_prevLogIndex request =? 0) = false)
    by (apply Z.eqb_neq; lia).
  assert (E3 : (0 <=? ae_prevLogIndex request - 1) = false)
    by (apply Z.leb_gt; lia).
  assert (E4 : (0 <=? Z.of_nat (length (log self))
                      + (ae_prevLogIndex request - 1)) = false)
    by (apply Z.leb_gt; unfold Log.len in *; lia).
  rewrite E1, E2. simpl. rewrite !E3, E4. reflexivity.
Qed.

Lemma handle_append_entry_request_negative_index_witness :
  handle_append_entry_request fresh (append_request 1 "5001" (-1) 0 a1 0) =
    (set_voted_for None
       (set_current_term (ae_term (append_request 1 "5001" (-1) 0 a1 0))
          (set_leader_id
             (Some (ae_leaderId (append_request 1 "5001" (-1) 0 a1 0)))
             (set_talked_to_leader (Some true) (set_role FOLLOWER fresh)))),
     Raise IndexError).
Proof.
  apply (handle_append_entry_request_negative_index fresh
           (append_request 1 "5001" (-1) 0 a1 0));
    unfold Log.len; simpl; lia.
Defined.

(** X13: whatever the request, the handler keeps the replica's identity,
    peers, majority and leader tables; the log it leaves is a prefix of the
    old log followed by at most the one entry of the request; the term in the
    reply is the term the replica had before the call; and every refusal and
    every exception (only [IndexError], only for a negative [prevLogIndex])
    leaves the commit index alone. *)
Theorem handle_append_entry_request_shape (self : Server)
    (request : AppendEntriesRequest) :
  let out := handle_append_entry_request self request in
  (id (fst out) = id self /\ servers (fst out) = servers self /\
   majority (fst out) = majority self /\
   last_applied (fst out) = last_applied self /\
   followers_next_indexes (fst out) = followers_next_indexes self /\
   followers_match_indexes (fst out) = followers_match_indexes self) /\
  (exists l1, l1 `prefix_of` log self /\
     (log (fst out) = l1 \/
      log (fst out) =
        l1 ++ [{| term := ae_term request; entry := ae_entry request |}])) /\
  match snd out with
  | Ret result =>
      aer_term result = current_term self /\
      (aer_success result = false -> commit_index (fst out) = commit_index self)
  | Raise e =>
      e = IndexError /\ ae_prevLogIndex request < 0 /\
      commit_index (fst out) = commit_index self /\ log (fst out) = log self
  end.
Proof.
  intros out. subst out. unfold handle_append_entry_request.
  destruct (ae_term request <? current_term self).
  { simpl. repeat split; auto. exists (log self). split; [reflexivity | auto]. }
  simpl.
  pose proof (sync_at_item_cuts_suffix (log self) (ae_prevLogIndex request)
                (ae_prevLogTerm request)) as Hcut.
  destruct (Log.sync_at_item _ _ _) as [[synced l1] | e]; simpl.
  - destruct synced; simpl.
    + destruct (truthy (ae_entry request)); simpl;
        destruct (ae_leaderCommit request >? commit_index self); simpl;
        (split; [repeat split|]);
        (split; [exists l1; split; [exact Hcut | auto] |]);
        (split; [reflexivity | discriminate]).
    + repeat split; auto. exists l1. split; [exact Hcut | auto].
  - destruct Hcut as [-> Hneg]. repeat split; auto.
    exists (log self). split; [reflexivity | auto].
Qed.

(** ** Elections *)

Section DictLookup.

Context {V : Type}.
Implicit Types (d : dict V) (k : string) (v : V).

Lemma dict_get_set_eq d k v : dict_get (dict_set d k v) k = Some v.
Proof.
  induction d as [|[k' v'] d' IH]; simpl.
  - rewrite String.eqb_refl. reflexivity.
  - destruct (String.eqb k' k) eqn:E; simpl; rewrite E; auto.
Qed.

Lemma dict_get_set_ne d k k' v :
  k <> k' -> dict_get (dict_set d k v) k' = dict_get d k'.
Proof.
  intros Hne. induction d as [|[k0 v0] d' IH]; simpl.
  - apply String.eqb_neq in Hne. rewrite Hne. reflexivity.
  - destruct (String.eqb k0 k) eqn:E; simpl.
    + apply String.eqb_eq in E. subst k0.
      apply String.eqb_neq in Hne. rewrite Hne. reflexivity.
    + destruct (String.eqb k0 k'); auto.
Qed.

Lemma dict_get_set_is_Some d k k' v :
  is_Some (dict_get d k') -> is_Some (dict_get (dict_set d k v) k').
Proof.
  intros Hd. destruct (String.eqb_spec k k') as [-> | Hne].
  - rewrite dict_get_set_eq. eauto.
  - rewrite dict_get_set_ne by exact Hne. exact Hd.
Qed.

Lemma dict_get_zip_const keys k v :
  k ∈ keys -> dict_get (dict_zip_const keys v) k = Some v.
Proof.
  intros Hin.
  assert (Hsome : is_Some (dict_get (dict_zip_const keys v) k)).
  { unfold dict_zip_const.
    assert (Hfold : forall ks d, k ∈ ks \/ is_Some (dict_get d k) ->
              is_Some (dict_get (fold_left (fun d k => dict_set d k v) ks d) k)).
    { induction ks as [|k0 ks IH]; intros d [Hk | Hd]; simpl.
      - apply elem_of_nil in Hk. contradiction.
      - exact Hd.
      - apply IH. apply elem_of_cons in Hk as [-> | Hk]; [right | left; auto].
        rewrite dict_get_set_eq. eauto.
      - apply IH. right. apply dict_get_set_is_Some, Hd. }
    apply Hfold. left. exact Hin. }
  destruct Hsome as [w Hw]. rewrite Hw. f_equal. symmetry.
  exact (dict_get_Forall (fun w => v = w) _ _ _
           (dict_zip_const_Forall (fun w => v = w) keys v eq_refl) Hw).
Qed.

End DictLookup.

(** The vote loop of a candidate either ends with the candidate promoted, and
    then enough of the peers granted, or ends with another role. *)
Lemma request_votes_leader (transport : request_vote_transport)
    (peers : list string) : forall (self : Server) (votes : Z),
  role self = CANDIDATE ->
  role (fst (request_votes transport self peers votes)) = LEADER ->
  majority self
  <= votes + Z.of_nat (length (filter
                 (fun p => grants transport (candidate_request self) p = true)
                 peers)) /\
  fst (request_votes transport self peers votes) = become_leader self.
Proof.
  induction peers as [|server rest IH]; intros self votes Hcand; simpl.
  { rewrite Hcand. discriminate. }
  rewrite get_item_term_last. fold (candidate_request self).
  set (count := fun ps => Z.of_nat (length (filter
                 (fun p => grants transport (candidate_request self) p = true)
                 ps))).
  fold (count (server :: rest)). fold (count rest) in IH.
  assert (Hcount : count (server :: rest) =
            (if grants transport (candidate_request self) server then 1 else 0)
            + count rest).
  { subst count. cbv beta.
    destruct (grants transport (candidate_request self) server) eqn:Hg.
    - rewrite filter_cons_True by exact Hg. simpl length. lia.
    - rewrite filter_cons_False by (rewrite Hg; discriminate). lia. }
  assert (Hnn : 0 <= count rest) by (subst count; cbv beta; lia).
  unfold grants in Hcount.
  destruct (transport server (candidate_request self)) as [vote|].
  - destruct (check_response_term_cases self (rvr_term vote))
      as [[_ ->] | ->]; simpl; [|discriminate].
    rewrite Hcand.
    destruct (rvr_voteGranted vote);
      match goal with
      | |- context [?v >=? majority self] =>
          destruct (Z.geb_spec v (majority self))
      end; simpl.
    + intros _. split; [lia | reflexivity].
    + intros Hl. destruct (IH self (votes + 1) Hcand Hl) as [Hm ->].
      fold (count rest) in Hm. split; [lia | reflexivity].
    + intros _. split; [lia | reflexivity].
    + intros Hl. destruct (IH self votes Hcand Hl) as [Hm ->].
      fold (count rest) in Hm. split; [lia | reflexivity].
  - intros Hl. destruct (IH self votes Hcand Hl) as [Hm ->].
    fold (count rest) in Hm. split; [lia | reflexivity].
Qed.

Lemma do_elections_leader (transport : request_vote_transport) (self : Server) :
  role self <> LEADER ->
  role (fst (do_elections transport self)) = LEADER ->
  flag_set (talked_to_leader self) = false /\
  majority self
  <= 1 + Z.of_nat (length (filter
         (fun p => grants transport (candidate_request (candidate self)) p
                   = true)
         (servers self))) /\
  fst (do_elections transport self) = become_leader (candidate self).
Proof.
  intros Hrole. unfold do_elections.
  destruct (flag_set (talked_to_leader self)) eqn:Hflag.
  - destruct (role self) eqn:Hr; simpl; rewrite ?Hr; congruence.
  - intros Hl. split; [reflexivity|].
    assert (Hl' : role (fst (request_votes transport (candidate self)
                               (servers (candidate self)) 1)) = LEADER).
    { destruct (role self) eqn:Hr; try congruence; exact Hl. }
    destruct (request_votes_leader transport (servers (candidate self))
                (candidate self) 1 eq_refl Hl') as [Hm Heq].
    split; [exact Hm|].
    destruct (role self) eqn:Hr; try congruence; exact Heq.
Qed.

(** X14: a replica that was not leader leaves an election pass as leader only
    if, counting itself, at least [majority] replicas voted for it: the peers
    that answer its request with a granted vote number at least
    [majority - 1]. *)
Theorem election_win_needs_majority (transport : request_vote_transport)
    (self : Server) :
  role self <> LEADER ->
  role (fst (do_elections transport self)) = LEADER ->
  majority self
  <= 1 + Z.of_nat (length (filter
         (fun p => grants transport (candidate_request (candidate self)) p
                   = true)
         (servers self))).
Proof.
  intros Hrole Hl. apply (do_elections_leader transport self Hrole Hl).
Qed.

Lemma election_win_needs_majority_witness :
  majority fresh
  <= 1 + Z.of_nat (length (filter
         (fun p => grants grant_all (candidate_request (candidate fresh)) p
                   = true)
         (servers fresh))).
Proof.
  apply (election_win_needs_majority grant_all fresh).
  - discriminate.
  - reflexivity.
Defined.

(** X15: a replica that wins an election has raised its term by exactly one
    and holds, for every peer, next index [len(log) + 1] and match index 0;
    its log, commit index and vote are those it had before. *)
Theorem election_win_state (transport : request_vote_transport)
    (self : Server) :
  role self <> LEADER ->
  role (fst (do_elections transport self)) = LEADER ->
  let leader := fst (do_elections transport self) in
  current_term leader = current_term self + 1 /\
  log leader = log self /\ commit_index leader = commit_index self /\
  voted_for leader = voted_for self /\
  (forall p, p ∈ servers self ->
     dict_get (followers_next_indexes leader) p
     = Some (Log.len (log self) + 1) /\
     dict_get (followers_match_indexes leader) p = Some 0).
Proof.
  intros Hrole Hl leader. subst leader.
  destruct (do_elections_leader transport self Hrole Hl) as (_ & _ & ->).
  simpl. repeat split; auto; apply dict_get_zip_const; assumption.
Qed.

Lemma election_win_state_witness :
  let leader := fst (do_elections grant_all fresh) in
  current_term leader = current_term fresh + 1 /\
  log leader = log fresh /\ commit_index leader = commit_index fresh /\
  voted_for leader = voted_for fresh /\
  (forall p, p ∈ servers fresh ->
     dict_get (followers_next_indexes leader) p
     = Some (Log.len (log fresh) + 1) /\
     dict_get (followers_match_indexes leader) p = Some 0).
Proof.
  apply (election_win_state grant_all fresh).
  - discriminate.
  - reflexivity.
Defined.

Lemma request_votes_frame (transport : request_vote_transport)
    (peers : list string) : forall (self : Server) (votes : Z),
  let out := request_votes transport self peers votes in
  snd out = Ret tt /\
  log (fst out) = log self /\ commit_index (fst out) = commit_index self /\
  voted_for (fst out) = voted_for self /\ id (fst out) = id self /\
  servers (fst out) = servers self /\ majority (fst out) = majority self.
Proof.
  induction peers as [|server rest IH]; intros self votes; simpl.
  { repeat split. }
  rewrite get_item_term_last.
  destruct (transport server _) as [vote|]; [|apply IH].
  destruct (check_response_term_cases self (rvr_term vote))
    as [[_ ->] | ->]; simpl; [|repeat split].
  destruct (role self); simpl; try (repeat split; fail);
    destruct (_ >=? majority self); simpl; try (repeat split; fail); apply IH.
Qed.

(** X16: an election pass never raises and never touches the log, the commit
    index or the vote of the replica: a candidate counts its own vote
    without recording it in [voted_for].  Identity, peers and majority stay
    as well. *)
Theorem do_elections_frame (transport : request_vote_transport)
    (self : Server) :
  let out := do_elections transport self in
  snd out = Ret tt /\
  log (fst out) = log self /\ commit_index (fst out) = commit_index self /\
  voted_for (fst out) = voted_for self /\ id (fst out) = id self /\
  servers (fst out) = servers self /\ majority (fst out) = majority self.
Proof.
  intros out. subst out. unfold do_elections.
  destruct (role self); simpl; try (repeat split; fail);
    destruct (flag_set (talked_to_leader self)); simpl;
    try (repeat split; fail);
    apply (request_votes_frame transport (servers self)
             (set_current_term (current_term self + 1)
                (set_role CANDIDATE self)) 1).
Qed.

(** X17: a replica whose election pass follows a heartbeat only clears
    [talked_to_leader]; a replica that heard nothing and gets no reply to its
    vote requests ends the pass as candidate, one term higher. *)
Theorem do_elections_without_replies (self : Server) :
  role self <> LEADER ->
  fst (do_elections silent self) =
    if flag_set (talked_to_leader self)
    then set_talked_to_leader None self
    else candidate self.
Proof.
  intros Hrole. unfold do_elections.
  assert (Hloop : forall peers s votes,
            request_votes silent s peers votes = (s, Ret tt)).
  { induction peers as [|p ps IH]; intros s votes; simpl; [reflexivity|].
    rewrite get_item_term_last. apply IH. }
  destruct (role self); try congruence;
    destruct (flag_set (talked_to_leader self)); try reflexivity;
    rewrite Hloop; reflexivity.
Qed.

Lemma do_elections_without_replies_witness :
  fst (do_elections silent fresh) =
    if flag_set (talked_to_leader fresh)
    then set_talked_to_leader None fresh
    else candidate fresh.
Proof.
  apply (do_elections_without_replies fresh). discriminate.
Defined.

(** ** The tables of a leader *)

Section LeaderTables.

Implicit Types (self : Server).

Lemma leader_inv_frame self self' :
  leader_inv self ->
  servers self' = servers self ->
  Log.len (log self) <= Log.len (log self') ->
  followers_next_indexes self' = followers_next_indexes self ->
  followers_match_indexes self' = followers_match_indexes self ->
  leader_inv self'.
Proof.
  intros [Hp Hk Hn Hm] Hs Hl Hnext Hmatch.
  constructor; rewrite ?Hs, ?Hnext, ?Hmatch; auto.
  - eapply Forall_impl; [exact Hn|]. simpl. intros kv Hkv. lia.
  - eapply Forall_impl; [exact Hm|]. simpl. intros kv Hkv. lia.
Qed.

Lemma leader_inv_become_leader self :
  servers self <> [] -> leader_inv (become_leader self).
Proof.
  intros Hp. pose proof (len_nonneg (log self)) as Hnn.
  constructor; simpl.
  - exact Hp.
  - intros p Hin. rewrite !dict_get_zip_const by exact Hin. eauto.
  - apply (dict_zip_const_Forall
             (fun v => 1 <= v <= Log.len (log self) + 1)). lia.
  - apply (dict_zip_const_Forall (fun v => 0 <= v <= Log.len (log self))).
    lia.
Qed.

Lemma handle_append_entry_request_role self request :
  fst (handle_append_entry_request self request) = self \/
  role (fst (handle_append_entry_request self request)) = FOLLOWER.
Proof.
  unfold handle_append_entry_request.
  destruct (ae_term request <? current_term self); [left; reflexivity|].
  right. case_split; reflexivity.
Qed.

Lemma py_index_Ret_bound {A} (xs : list A) (j : Z) (x : A) :
  0 <= j -> py_index xs j = Ret x -> j < Z.of_nat (length xs).
Proof.
  intros Hj. unfold py_index. cbv zeta.
  assert (E : (0 <=? j) = true) by (apply Z.leb_le; lia).
  rewrite !E. simpl.
  destruct (Z.ltb_spec j (Z.of_nat (length xs))); [auto | discriminate].
Qed.

(** A request is always built for a next index within [1 .. len + 1]. *)
Lemma append_entries_request_built self next_index :
  1 <= next_index <= Log.len (log self) + 1 ->
  exists request, append_entries_request self next_index = Ret request.
Proof.
  intros Hn. unfold append_entries_request.
  assert (Hterm : exists t,
            Log.get_item_term (log self) (next_index - 1) = Ret t).
  { destruct (Z.eq_dec next_index 1) as [-> | Hne]; [simpl; eauto|].
    destruct (log_read_in_range (log self) (next_index - 1))
      as (x & _ & _ & ->); [lia | eauto]. }
  assert (Hitem : exists e, Log.get_item (log self) next_index = Ret e).
  { destruct (Z.eq_dec next_index (Log.len (log self) + 1)) as [-> | Hne].
    - unfold Log.get_item. rewrite Z.eqb_refl. eauto.
    - destruct (log_read_in_range (log self) next_index)
        as (x & _ & -> & _); [lia | eauto]. }
  destruct Hterm as [t ->]. destruct Hitem as [e ->]. simpl. eauto.
Qed.

(** A truthy entry is only ever read at an index the log holds. *)
Lemma append_entries_request_truthy self next_index request :
  1 <= next_index ->
  append_entries_request self next_index = Ret request ->
  truthy (ae_entry request) = true ->
  next_index <= Log.len (log self).
Proof.
  intros Hn. unfold append_entries_request.
  destruct (Log.get_item_term _ _) as [t|]; [|discriminate]. simpl.
  unfold Log.get_item.
  destruct (Z.eqb_spec (Log.len (log self) + 1) next_index) as [Heq | Hne].
  - simpl. intros [= <-]. simpl. discriminate.
  - destruct (py_index (log self) (next_index - 1)) as [x|] eqn:Hx;
      [|discriminate].
    simpl. intros _ _. apply py_index_Ret_bound in Hx; [|lia].
    unfold Log.len. lia.
Qed.

Lemma append_entry_to_follower_role transport self follower_server :
  role (fst (append_entry_to_follower transport self follower_server))
  = role self \/
  role (fst (append_entry_to_follower transport self follower_server))
  = FOLLOWER.
Proof.
  unfold append_entry_to_follower.
  destruct (dict_get _ _) as [next_index|]; [|left; reflexivity].
  destruct (append_entries_request self next_index) as [request|];
    [|left; reflexivity].
  destruct (transport follower_server request) as [result|];
    [|left; reflexivity].
  destruct (check_response_term_cases self (aer_term result))
    as [[_ ->] | ->]; simpl; [|right; reflexivity].
  destruct (aer_success result); simpl.
  - destruct (truthy (ae_entry request)); simpl; [|left; reflexivity].
    left. unfold try_leader_commit. case_split; reflexivity.
  - destruct (next_index - 1 >? 0); left; reflexivity.
Qed.

Lemma try_leader_commit_leader_inv self index :
  leader_inv self -> leader_inv (fst (try_leader_commit self index)).
Proof.
  intros Hinv. apply (leader_inv_frame self); try assumption;
    unfold try_leader_commit; case_split; try reflexivity; lia.
Qed.

Lemma check_response_term_leader_inv self response_term :
  leader_inv self ->
  leader_inv (fst (check_response_term self response_term)).
Proof.
  intros Hinv.
  destruct (check_response_term_cases self response_term) as [[_ ->] | ->];
    [exact Hinv|].
  apply (leader_inv_frame self); simpl; auto. lia.
Qed.

(** The tables stay well formed through an exchange, also when the replica
    steps down in it. *)
Lemma append_entry_to_follower_keeps_tables transport self follower_server :
  honest transport -> replica_inv self -> leader_inv self ->
  leader_inv (fst (append_entry_to_follower transport self follower_server)).
Proof.
  intros Hhonest Hrep Hinv. unfold append_entry_to_follower.
  destruct (dict_get _ _) as [next_index|] eqn:Hget; [|exact Hinv].
  assert (Hbound : 1 <= next_index <= Log.len (log self) + 1).
  { exact (dict_get_Forall
             (fun v => 1 <= v <= Log.len (log self) + 1) _ _ _
             (leader_next _ Hinv) Hget). }
  destruct (append_entries_request self next_index) as [request|] eqn:Hreq;
    [|exact Hinv].
  destruct (transport follower_server request) as [result|] eqn:Hreply;
    [|exact Hinv].
  pose proof (check_response_term_leader_inv self (aer_term result) Hinv)
    as Hdown.
  destruct (check_response_term_cases self (aer_term result))
    as [[Hterm Hc] | Hc]; rewrite Hc in *; simpl in *; [|exact Hdown].
  destruct (aer_success result) eqn:Hsuccess; simpl.
  - destruct (truthy (ae_entry request)) eqn:Htruthy; simpl; [|exact Hinv].
    apply try_leader_commit_leader_inv.
    pose proof (append_entries_request_truthy self next_index request
                  ltac:(lia) Hreq Htruthy) as Hle.
    destruct Hinv as [Hp Hk Hn Hm]. constructor; simpl.
    + exact Hp.
    + intros p Hin. destruct (Hk p Hin) as [Hkn Hkm].
      split; apply dict_get_set_is_Some; assumption.
    + apply (dict_set_Forall (fun v => 1 <= v <= Log.len (log self) + 1));
        [exact Hn | lia].
    + apply (dict_set_Forall (fun v => 0 <= v <= Log.len (log self)));
        [exact Hm | lia].
  - pose proof (honest_refusal_has_previous_entry _ _ _ _ _ _
                  Hhonest (proj1 Hbound) Hreq Hreply Hsuccess Hterm) as Hprev.
    assert (Hinv' : leader_inv
              (set_followers_next_indexes
                 (dict_set (followers_next_indexes self) follower_server
                    (next_index - 1)) self)).
    { destruct Hinv as [Hp Hk Hn Hm]. constructor; simpl; auto.
      - intros p Hin. destruct (Hk p Hin) as [Hkn Hkm].
        split; [apply dict_get_set_is_Some|]; assumption.
      - apply (dict_set_Forall (fun v => 1 <= v <= Log.len (log self) + 1));
          [exact Hn | lia]. }
    destruct (next_index - 1 >? 0); exact Hinv'.
Qed.

Lemma append_entry_to_follower_leader_inv transport self follower_server :
  honest transport -> replica_inv self -> leader_inv self ->
  role (fst (append_entry_to_follower transport self follower_server))
  = LEADER ->
  leader_inv (fst (append_entry_to_follower transport self follower_server)).
Proof.
  intros Hhonest Hrep Hinv _.
  apply append_entry_to_follower_keeps_tables; assumption.
Qed.

(** With well-formed tables and honest replies the call for a peer builds
    its request, returns when a reply comes back and raises
    [AttributeError] when none does. *)
Lemma append_entry_to_follower_answers transport self p :
  leader_inv self -> p ∈ servers self -> honest transport ->
  exists next_index request,
    dict_get (followers_next_indexes self) p = Some next_index /\
    append_entries_request self next_index = Ret request /\
    match transport p request with
    | None =>
        append_entry_to_follower transport self p = (self, Raise AttributeError)
    | Some _ =>
        exists r, snd (append_entry_to_follower transport self p) = Ret r
    end.
Proof.
  intros [_ Hk Hn _] Hin Hhonest.
  destruct (Hk p Hin) as [[n Hgn] _].
  pose proof (dict_get_Forall (fun v => 1 <= v <= Log.len (log self) + 1)
                _ _ _ Hn Hgn) as Hbound. simpl in Hbound.
  destruct (append_entries_request_built self n Hbound) as [request Hreq].
  exists n, request. split; [exact Hgn|]. split; [exact Hreq|].
  unfold append_entry_to_follower. rewrite Hgn, Hreq.
  destruct (transport p request) as [result|] eqn:Hreply; [|reflexivity].
  destruct (check_response_term_cases self (aer_term result))
    as [[Hterm ->] | ->]; simpl; [|eauto].
  destruct (aer_success result) eqn:Hsuccess; simpl.
  - destruct (truthy (ae_entry request)); simpl; eauto.
  - pose proof (honest_refusal_has_previous_entry _ _ _ _ _ _
                  Hhonest (proj1 Hbound) Hreq Hreply Hsuccess Hterm) as Hprev.
    assert (Hgt : (n - 1 >? 0) = true) by (apply Z.gtb_lt; lia).
    rewrite Hgt. simpl. eauto.
Qed.

Lemma step_leader_inv self self' :
  step self self' -> reachable self ->
  (role self = LEADER -> leader_inv self) ->
  role self' = LEADER -> leader_inv self'.
Proof.
  intros Hstep Hreach IH.
  destruct Hstep as [self request | self request | self transport
                    | self entry0 | self transport follower_server Hhonest].
  - destruct (handle_append_entry_request_role self request) as [-> | ->];
      [exact IH | discriminate].
  - rewrite handle_vote_request_eq. simpl.
    destruct (vote_granted self request); [|exact IH].
    simpl. intros Hl. apply (leader_inv_frame self); auto. simpl. lia.
  - destruct (role self) eqn:Hr.
    + intros Hl.
      destruct (do_elections_leader transport self ltac:(congruence) Hl)
        as (_ & _ & ->).
      apply leader_inv_become_leader. simpl. intros Hnil.
      apply (single_replica_never_elected transport self Hnil
               ltac:(congruence) Hl).
    + unfold do_elections. rewrite Hr. simpl. intros _. apply IH. reflexivity.
    + intros Hl.
      destruct (do_elections_leader transport self ltac:(congruence) Hl)
        as (_ & _ & ->).
      apply leader_inv_become_leader. simpl. intros Hnil.
      apply (single_replica_never_elected transport self Hnil
               ltac:(congruence) Hl).
  - unfold client_append. destruct (role self) eqn:Hr; simpl;
      try (intros; congruence).
    intros _. apply (leader_inv_frame self); simpl; auto.
    unfold Log.len. rewrite length_app. simpl. lia.
  - intros Hl.
    assert (Hrole : role self = LEADER).
    { destruct (append_entry_to_follower_role transport self follower_server)
        as [Hsame | Hf]; congruence. }
    apply append_entry_to_follower_leader_inv; auto.
    apply reachable_inv, Hreach.
Qed.

Lemma Server_init_role servers0 server_index self :
  Server_init servers0 server_index = Ret self -> role self = FOLLOWER.
Proof.
  unfold Server_init.
  destruct (py_index servers0 server_index); [|discriminate]. simpl.
  destruct (py_del servers0 server_index); [|discriminate]. simpl.
  intros [= <-]. reflexivity.
Qed.

Lemma reachable_leader_inv self :
  reachable self -> role self = LEADER -> leader_inv self.
Proof.
  induction 1 as [servers0 server_index self Hinit | self self' Hreach IH Hstep].
  - pose proof (Server_init_role _ _ _ Hinit). congruence.
  - exact (step_leader_inv self self' Hstep Hreach IH).
Qed.

End LeaderTables.





(** ** The drivers on a cluster of three *)

(** The elected replica commits a client entry after the exchange with the
    first follower, which makes a majority of two; the second follower has
    not been contacted yet. *)
Example client_append_commits :
  let out := handle_client_append_entry_request cluster_send 3 two_followers
               elected a1 in
  snd (snd out) = Returned {| cr_success := true; cr_leader := None |} /\
  commit_index (fst (snd out)) = 1 /\
  log (fst (snd out)) = [{| term := 1; entry := a1 |}] /\
  (log <$> dict_get (fst out) "5001") = Some [{| term := 1; entry := a1 |}] /\
  (log <$> dict_get (fst out) "5002") = Some [].
Proof. repeat split. Qed.

(** A replica that is not leader redirects the client at once. *)
Example client_append_redirected :
  handle_client_append_entry_request cluster_send 3 two_followers fresh a1 =
    (two_followers,
     (fresh, Returned {| cr_success := false; cr_leader := None |})).
Proof. reflexivity. Qed.

(** A heartbeat round of the veteran leader brings both fresh followers up
    to its one entry. *)
Example heartbeat_round_syncs :
  let out := send_heartbeats_and_sync_up cluster_send 3 two_followers veteran in
  snd (snd out) = Returned tt /\
  followers_next_indexes (fst (snd out))
  = [("5001"%string, 2); ("5002"%string, 2)] /\
  (Log.len <$> (log <$> dict_get (fst out) "5001")) = Some 1 /\
  (Log.len <$> (log <$> dict_get (fst out) "5002")) = Some 1.
Proof. repeat split. Qed.

(** ** What an exchange changes *)

Section Exchange.

Implicit Types (self : Server).

Lemma advances_refl self : advances self self.
Proof. constructor; auto; lia. Qed.

Lemma advances_trans self1 self2 self3 :
  advances self1 self2 -> advances self2 self3 -> advances self1 self3.
Proof.
  intros [] []. constructor; try congruence; lia.
Qed.

Lemma try_leader_commit_tables self index :
  followers_next_indexes (fst (try_leader_commit self index))
  = followers_next_indexes self /\
  followers_match_indexes (fst (try_leader_commit self index))
  = followers_match_indexes self /\
  role (fst (try_leader_commit self index)) = role self /\
  leader_id (fst (try_leader_commit self index)) = leader_id self.
Proof. unfold try_leader_commit. case_split; auto. Qed.

Lemma try_leader_commit_advances self index :
  advances self (fst (try_leader_commit self index)).
Proof.
  constructor;
    try (unfold try_leader_commit; case_split; reflexivity).
  apply try_leader_commit_monotone.
Qed.

Lemma append_entry_to_follower_advances transport self follower_server :
  advances self
    (fst (append_entry_to_follower transport self follower_server)).
Proof.
  unfold append_entry_to_follower.
  destruct (dict_get _ _) as [next_index|]; [|apply advances_refl].
  destruct (append_entries_request self next_index) as [request|];
    [|apply advances_refl].
  destruct (transport follower_server request) as [result|];
    [|apply advances_refl].
  pose proof (check_response_term_current_term self (aer_term result)) as Ht.
  destruct (check_response_term_cases self (aer_term result))
    as [[_ Hc] | Hc]; rewrite Hc in *; simpl in *.
  - destruct (aer_success result); simpl.
    + destruct (truthy (ae_entry request)); simpl; [|apply advances_refl].
      eapply advances_trans; [|apply try_leader_commit_advances].
      constructor; simpl; auto; lia.
    + destruct (next_index - 1 >? 0); constructor; simpl; auto; lia.
  - constructor; simpl; auto; lia.
Qed.

(** The index the call returns is the one it left in the table. *)
Lemma append_entry_to_follower_returns transport self follower_server n :
  snd (append_entry_to_follower transport self follower_server)
  = Ret (Some n) ->
  dict_get (followers_next_indexes
              (fst (append_entry_to_follower transport self follower_server)))
    follower_server = Some n.
Proof.
  unfold append_entry_to_follower.
  destruct (dict_get _ _) as [next_index|] eqn:Hget; [|discriminate].
  destruct (append_entries_request self next_index) as [request|];
    [|discriminate].
  destruct (transport follower_server request) as [result|]; [|discriminate].
  destruct (check_response_term_cases self (aer_term result))
    as [[_ ->] | ->]; simpl; [|discriminate].
  destruct (aer_success result); simpl.
  - destruct (truthy (ae_entry request)); simpl.
    + intros [= <-].
      rewrite (proj1 (try_leader_commit_tables _ _)). simpl.
      apply dict_get_set_eq.
    + intros [= <-]. exact Hget.
  - destruct (next_index - 1 >? 0); simpl; [|discriminate].
    intros [= <-]. apply dict_get_set_eq.
Qed.

Lemma py_index_elem_of {A} (xs : list A) (j : Z) (x : A) :
  py_index xs j = Ret x -> x ∈ xs.
Proof.
  unfold py_index. cbv zeta. destruct (_ && _); [|discriminate].
  destruct (xs !! _) as [y|] eqn:Hy; [|discriminate].
  intros [= <-]. apply list_elem_of_lookup. eauto.
Qed.

End Exchange.

(** ** Client requests and heartbeats *)

Section Drivers.

Context {W : Type} (send : append_entries_network W).
Implicit Types (self : Server) (w : W).

(** Steps a driver loop by one exchange: names the replica and the result
    the exchange leaves, with what is known about them. *)
Ltac step_exchange w self server self1 res Hadv Hret :=
  pose proof (append_entry_to_follower_advances
                (fun p r => snd (send w p r)) self server) as Hadv;
  pose proof (append_entry_to_follower_returns
                (fun p r => snd (send w p r)) self server) as Hret;
  unfold exchange; cbv zeta;
  destruct (append_entry_to_follower (fun p r => snd (send w p r)) self server)
    as [self1 res];
  simpl in Hadv, Hret.

Lemma client_append_loop_advances fuel : forall w self entry_index server_index,
  advances self
    (fst (snd (client_append_loop send fuel w self entry_index server_index))).
Proof.
  induction fuel as [|fuel IH]; intros w self ei si;
    [apply advances_refl|].
  cbn [client_append_loop].
  destruct (Z.of_nat (length (servers self)) =? 0); [apply advances_refl|].
  cbv zeta.
  destruct (py_index (servers self) _) as [server|e];
    [|apply advances_refl].
  step_exchange w self server self1 res Hadv Hret.
  destruct res as [[ni|]|e]; simpl; try exact Hadv;
    destruct (role self1); try exact Hadv;
    try (eapply advances_trans; [exact Hadv | apply IH]).
  destruct (ni =? 0); [eapply advances_trans; [exact Hadv | apply IH]|].
  destruct (ei >=? ni); [eapply advances_trans; [exact Hadv | apply IH]|].
  destruct (commit_index self1 =? ei); [exact Hadv|].
  eapply advances_trans; [exact Hadv | apply IH].
Qed.

Lemma client_append_loop_returned fuel : forall w self entry_index server_index,
  let out := client_append_loop send fuel w self entry_index server_index in
  match snd (snd out) with
  | Returned r =>
      cr_leader r = leader_id (fst (snd out)) /\
      if cr_success r
      then role (fst (snd out)) = LEADER /\
           commit_index (fst (snd out)) = entry_index /\
           exists p n,
             p ∈ servers self /\
             dict_get (followers_next_indexes (fst (snd out))) p = Some n /\
             entry_index < n
      else role (fst (snd out)) <> LEADER
  | _ => True
  end.
Proof.
  induction fuel as [|fuel IH]; intros w self ei si; [exact I|].
  cbn [client_append_loop].
  destruct (Z.of_nat (length (servers self)) =? 0); [exact I|].
  cbv zeta.
  destruct (py_index (servers self) _) as [server|e] eqn:Hserver; [|exact I].
  apply py_index_elem_of in Hserver.
  step_exchange w self server self1 res Hadv Hret.
  assert (Hrec : forall w1 si1,
            let out := client_append_loop send fuel w1 self1 ei si1 in
            match snd (snd out) with
            | Returned r =>
                cr_leader r = leader_id (fst (snd out)) /\
                if cr_success r
                then role (fst (snd out)) = LEADER /\
                     commit_index (fst (snd out)) = ei /\
                     exists p n,
                       p ∈ servers self /\
                       dict_get (followers_next_indexes (fst (snd out))) p
                       = Some n /\ ei < n
                else role (fst (snd out)) <> LEADER
            | _ => True
            end).
  { intros w1 si1. pose proof (IH w1 self1 ei si1) as H.
    rewrite (adv_servers _ _ Hadv) in H. exact H. }
  destruct res as [[ni|]|e]; simpl; try exact I;
    destruct (role self1) eqn:Hrole; simpl;
    try (split; [reflexivity | congruence]); try apply Hrec.
  destruct (ni =? 0); [apply Hrec|].
  destruct (Z.geb_spec ei ni); [apply Hrec|].
  destruct (Z.eqb_spec (commit_index self1) ei); [|apply Hrec].
  simpl. split; [reflexivity|]. split; [exact Hrole|]. split; [assumption|].
  exists server, ni. split; [exact Hserver|]. split; [auto | lia].
Qed.

(** X20: what the reply to a client means.  [success: True] is only returned
    by a replica that was leader and still is, whose log is the old log
    plus the client's entry at the current term, whose commit index is the
    index of that entry, and after the next index of one of its peers has
    passed that index.  [success: False] is only returned by a replica that
    is not leader; one that was not leader to begin with is left untouched
    and sends nothing.  The [leader] field is the replica's [leader_id]. *)
Theorem client_append_reply_meaning (fuel : nat) (w : W) (self : Server)
    (entry0 : json) :
  let out := handle_client_append_entry_request send fuel w self entry0 in
  match snd (snd out) with
  | Returned r =>
      cr_leader r = leader_id (fst (snd out)) /\
      if cr_success r
      then role self = LEADER /\ role (fst (snd out)) = LEADER /\
           log (fst (snd out))
           = log self ++ [{| term := current_term self; entry := entry0 |}] /\
           commit_index (fst (snd out)) = Log.len (log self) + 1 /\
           exists p n,
             p ∈ servers self /\
             dict_get (followers_next_indexes (fst (snd out))) p = Some n /\
             Log.len (log self) + 1 < n
      else role (fst (snd out)) <> LEADER /\
           (role self <> LEADER -> fst (snd out) = self /\ fst out = w)
  | _ => True
  end.
Proof.
  unfold handle_client_append_entry_request, client_append.
  destruct (role self) eqn:Hrole; simpl;
    try (split; [reflexivity|]; split; [congruence | auto]).
  set (self1 := set_log _ self).
  set (ei := Log.len _).
  assert (Hei : ei = Log.len (log self) + 1).
  { subst ei. unfold Log.len. rewrite length_app. simpl. lia. }
  pose proof (client_append_loop_returned fuel w self1 ei 0) as Hret.
  pose proof (client_append_loop_advances fuel w self1 ei 0) as Hadv.
  cbv zeta in Hret.
  destruct (snd (snd (client_append_loop send fuel w self1 ei 0)))
    as [r| |]; try exact I.
  destruct Hret as [Hleader Hret]. split; [exact Hleader|].
  destruct (cr_success r).
  - destruct Hret as (Hl & Hc & p & n & Hp & Hn & Hlt).
    split; [reflexivity|]. split; [exact Hl|].
    split; [rewrite (adv_log _ _ Hadv); reflexivity|].
    split; [lia|]. exists p, n. repeat split; auto. lia.
  - split; [exact Hret | congruence].
Qed.

End Drivers.

(** ** Payloads that are never replicated *)

Section FalsyPayload.

Context {W : Type} (send : append_entries_network W).
Implicit Types (self : Server) (w : W).

(** The request for the index of the last entry carries that entry. *)
Lemma append_entries_request_last self request x :
  last (log self) = Some x ->
  append_entries_request self (Log.len (log self)) = Ret request ->
  ae_entry request = entry x.
Proof.
  intros Hlast. unfold append_entries_request.
  destruct (Log.get_item_term _ _) as [t|]; [|discriminate]. simpl.
  assert (Hlen : 1 <= Log.len (log self)).
  { unfold Log.len. destruct (log self); [discriminate | simpl length; lia]. }
  destruct (log_read_in_range (log self) (Log.len (log self)))
    as (y & Hy & -> & _); [lia|].
  simpl. intros [= <-]. simpl.
  rewrite last_lookup in Hlast.
  replace (Z.to_nat (Log.len (log self) - 1)) with (pred (length (log self)))
    in Hy by (unfold Log.len; lia).
  congruence.
Qed.

(** While the last entry of the log is falsy, no next index moves past it. *)
Lemma append_entry_to_follower_capped transport self follower_server x :
  last (log self) = Some x -> truthy (entry x) = false ->
  Forall (fun kv : string * Z => snd kv <= Log.len (log self))
    (followers_next_indexes self) ->
  Forall (fun kv : string * Z => snd kv <= Log.len (log self))
    (followers_next_indexes
       (fst (append_entry_to_follower transport self follower_server))).
Proof.
  intros Hlast Hfalsy Hcap. unfold append_entry_to_follower.
  destruct (dict_get _ _) as [next_index|] eqn:Hget; [|exact Hcap].
  pose proof (dict_get_Forall (fun v => v <= Log.len (log self)) _ _ _
                Hcap Hget) as Hn. simpl in Hn.
  destruct (append_entries_request self next_index) as [request|] eqn:Hreq;
    [|exact Hcap].
  destruct (transport follower_server request) as [result|]; [|exact Hcap].
  destruct (check_response_term_cases self (aer_term result))
    as [[_ ->] | ->]; simpl; [|exact Hcap].
  destruct (aer_success result); simpl.
  - destruct (truthy (ae_entry request)) eqn:Htruthy; simpl; [|exact Hcap].
    rewrite (proj1 (try_leader_commit_tables _ _)). simpl.
    apply (dict_set_Forall (fun v => v <= Log.len (log self)));
      [exact Hcap|].
    destruct (Z.eq_dec next_index (Log.len (log self))) as [-> | Hne]; [|lia].
    rewrite (append_entries_request_last self request x Hlast Hreq) in Htruthy.
    congruence.
  - destruct (next_index - 1 >? 0); simpl;
      apply (dict_set_Forall (fun v => v <= Log.len (log self)));
      try exact Hcap; lia.
Qed.

Lemma client_append_loop_never_acks fuel x : forall w self server_index,
  last (log self) = Some x -> truthy (entry x) = false ->
  Forall (fun kv : string * Z => snd kv <= Log.len (log self))
    (followers_next_indexes self) ->
  match snd (snd (client_append_loop send fuel w self (Log.len (log self))
                    server_index)) with
  | Returned r => cr_success r = false
  | _ => True
  end.
Proof.
  induction fuel as [|fuel IH]; intros w self si Hlast Hfalsy Hcap; [exact I|].
  cbn [client_append_loop].
  destruct (Z.of_nat (length (servers self)) =? 0); [exact I|].
  cbv zeta.
  destruct (py_index (servers self) _) as [server|e]; [|exact I].
  pose proof (append_entry_to_follower_advances
                (fun p r => snd (send w p r)) self server) as Hadv.
  pose proof (append_entry_to_follower_returns
                (fun p r => snd (send w p r)) self server) as Hret.
  pose proof (append_entry_to_follower_capped
                (fun p r => snd (send w p r)) self server x Hlast Hfalsy Hcap)
    as Hcap1.
  unfold exchange. cbv zeta.
  destruct (append_entry_to_follower (fun p r => snd (send w p r)) self server)
    as [self1 res].
  simpl in Hadv, Hret, Hcap1.
  pose proof (adv_log _ _ Hadv) as Hlog.
  assert (Hrec : forall w1 si1,
            match snd (snd (client_append_loop send fuel w1 self1
                              (Log.len (log self)) si1)) with
            | Returned r => cr_success r = false
            | _ => True
            end).
  { intros w1 si1. rewrite <- Hlog. apply IH; rewrite ?Hlog; assumption. }
  destruct res as [[ni|]|e]; simpl; try exact I;
    destruct (role self1); simpl; try reflexivity; try apply Hrec.
  destruct (ni =? 0); [apply Hrec|].
  assert (Hni : ni <= Log.len (log self)).
  { exact (dict_get_Forall (fun v => v <= Log.len (log self)) _ _ _
             Hcap1 (Hret ni eq_refl)). }
  destruct (Z.geb_spec (Log.len (log self)) ni); [apply Hrec | lia].
Qed.

(** X21: a client entry whose payload is falsy (an empty object, 0, an empty
    string, ...) is never acknowledged.  On a reachable leader, whatever
    the network answers and however long the loop runs,
    [handle_client_append_entry_request] does not return [success: True]
    for it: no next index ever moves past the entry. *)
Theorem falsy_payload_never_acknowledged (fuel : nat) (w : W) (self : Server)
    (entry0 : json) :
  reachable self -> role self = LEADER -> truthy entry0 = false ->
  match snd (snd (handle_client_append_entry_request send fuel w self entry0))
  with
  | Returned r => cr_success r = false
  | _ => True
  end.
Proof.
  intros Hreach Hl Hfalsy.
  unfold handle_client_append_entry_request, client_append. rewrite Hl.
  simpl.
  set (x := {| term := current_term self; entry := entry0 |}).
  set (self1 := set_log (log self ++ [x]) self).
  assert (Hlen : Log.len (log self ++ [x]) = Log.len (log self1))
    by reflexivity.
  rewrite Hlen.
  apply (client_append_loop_never_acks fuel x).
  - simpl. apply last_snoc.
  - exact Hfalsy.
  - simpl. eapply Forall_impl;
      [exact (leader_next _ (reachable_leader_inv self Hreach Hl))|].
    simpl. intros kv Hkv. unfold Log.len in *. rewrite length_app. simpl. lia.
Qed.

End FalsyPayload.

Lemma falsy_payload_never_acknowledged_witness :
  match snd (snd (handle_client_append_entry_request cluster_send 5
                    two_followers elected (JObj [])))
  with
  | Returned r => cr_success r = false
  | _ => True
  end.
Proof.
  apply (falsy_payload_never_acknowledged cluster_send 5 two_followers elected
           (JObj [])).
  - exact reachable_elected.
  - reflexivity.
  - reflexivity.
Defined.

(** ** Drivers on an honest network *)

Lemma cluster_send_honest : honest_network cluster_send.
Proof.
  intros w peer request result. unfold cluster_send.
  destruct (dict_get w peer) as [follower|]; [|discriminate].
  destruct (handle_append_entry_request follower request) as [follower' out]
    eqn:Hh.
  simpl. destruct out as [r|e]; [|discriminate].
  intros [= <-]. exists follower. rewrite Hh. reflexivity.
Qed.

Section HonestDrivers.

Context {W : Type} (send : append_entries_network W).
Hypothesis send_honest : honest_network send.
Implicit Types (self : Server) (w : W).

(** One exchange for a peer keeps both invariants and can only fail for
    want of a reply. *)
Lemma exchange_safe w self p :
  replica_inv self -> leader_inv self -> p ∈ servers self ->
  let out := snd (exchange send w self p) in
  replica_inv (fst out) /\ leader_inv (fst out) /\
  servers (fst out) = servers self /\
  (forall e, snd out = Raise e -> e = AttributeError).
Proof.
  intros Hrep Hinv Hin. unfold exchange. cbv zeta. cbn [snd].
  set (transport := fun p r => snd (send w p r)).
  assert (Hhonest : honest transport) by apply send_honest.
  split; [apply append_entry_to_follower_inv; assumption|].
  split; [apply append_entry_to_follower_keeps_tables; assumption|].
  split; [apply (adv_servers _ _
                   (append_entry_to_follower_advances transport self p))|].
  destruct (append_entry_to_follower_answers transport self p Hinv Hin Hhonest)
    as (n & request & _ & _ & Hout).
  intros e. destruct (transport p request) as [result|].
  - destruct Hout as [r Hr]. rewrite Hr. discriminate.
  - rewrite Hout. simpl. congruence.
Qed.

Lemma client_append_loop_safe fuel : forall w self entry_index server_index,
  replica_inv self -> leader_inv self ->
  match snd (snd (client_append_loop send fuel w self entry_index
                    server_index)) with
  | Raised e => e = Escaped AttributeError
  | _ => True
  end.
Proof.
  induction fuel as [|fuel IH]; intros w self ei si Hrep Hinv; [exact I|].
  cbn [client_append_loop].
  pose proof (leader_peers _ Hinv) as Hpeers.
  destruct (Z.eqb_spec (Z.of_nat (length (servers self))) 0) as [Hz | Hnz].
  { destruct (servers self); [congruence | simpl in Hz; lia]. }
  cbv zeta.
  destruct (py_index_in_range (servers self)
              (si mod Z.of_nat (length (servers self))))
    as (server & Hlookup & ->).
  { apply Z.mod_pos_bound. lia. }
  assert (Hin : server ∈ servers self)
    by (apply list_elem_of_lookup; eauto).
  pose proof (exchange_safe w self server Hrep Hinv Hin) as Hsafe.
  destruct (exchange send w self server) as [w1 [self1 res]].
  simpl in Hsafe. destruct Hsafe as (Hrep1 & Hinv1 & _ & Hraise).
  destruct res as [[ni|]|e]; simpl.
  - destruct (role self1); try exact I.
    destruct (ni =? 0); [apply IH; assumption|].
    destruct (ei >=? ni); [apply IH; assumption|].
    destruct (commit_index self1 =? ei); [exact I | apply IH; assumption].
  - destruct (role self1); try exact I. apply IH; assumption.
  - f_equal. apply Hraise. reflexivity.
Qed.

Lemma sync_follower_safe fuel p : forall w self,
  replica_inv self -> leader_inv self -> p ∈ servers self ->
  let out := snd (sync_follower send fuel w self p) in
  replica_inv (fst out) /\ leader_inv (fst out) /\
  servers (fst out) = servers self /\
  match snd out with
  | Raised e => e = Escaped AttributeError
  | _ => True
  end.
Proof.
  induction fuel as [|fuel IH]; intros w self Hrep Hinv Hin;
    cbn [sync_follower]; [simpl; auto|].
  pose proof (exchange_safe w self p Hrep Hinv Hin) as Hsafe.
  destruct (exchange send w self p) as [w1 [self1 res]].
  simpl in Hsafe. destruct Hsafe as (Hrep1 & Hinv1 & Hs1 & Hraise).
  destruct res as [[ni|]|e]; simpl; auto.
  - destruct ((ni =? 0) || (ni >? Log.len (log self1))); simpl; auto.
    rewrite <- Hs1 in Hin.
    destruct (IH w1 self1 Hrep1 Hinv1 Hin) as (H1 & H2 & H3 & H4).
    split; [exact H1|]. split; [exact H2|].
    split; [congruence | exact H4].
  - split; [exact Hrep1|]. split; [exact Hinv1|]. split; [exact Hs1|].
    f_equal. apply Hraise. reflexivity.
Qed.

Lemma heartbeat_round_safe fuel peers : forall w self,
  replica_inv self -> leader_inv self ->
  (forall p, p ∈ peers -> p ∈ servers self) ->
  match snd (snd (heartbeat_round send fuel w self peers)) with
  | Raised e => e = Escaped AttributeError
  | _ => True
  end.
Proof.
  induction peers as [|server rest IH]; intros w self Hrep Hinv Hsub; simpl;
    [exact I|].
  assert (Hin : server ∈ servers self) by (apply Hsub, list_elem_of_here).
  pose proof (sync_follower_safe fuel server w self Hrep Hinv Hin) as Hsafe.
  destruct (sync_follower send fuel w self server) as [w1 [self1 res]].
  simpl in Hsafe. destruct Hsafe as (Hrep1 & Hinv1 & Hs1 & Hres).
  destruct res as [[]|e|]; simpl; try exact I; [|exact Hres].
  apply IH; try assumption.
  intros p Hp. rewrite Hs1. apply Hsub, list_elem_of_further, Hp.
Qed.



End HonestDrivers.



(** ** What the drivers leave alone *)

Section DriverFrame.

Context {W : Type} (send : append_entries_network W).
Implicit Types (self : Server) (w : W).

Lemma sync_follower_advances fuel p : forall w self,
  advances self (fst (snd (sync_follower send fuel w self p))).
Proof.
  induction fuel as [|fuel IH]; intros w self; simpl; [apply advances_refl|].
  pose proof (append_entry_to_follower_advances
                (fun p r => snd (send w p r)) self p) as Hadv.
  unfold exchange. cbv zeta.
  destruct (append_entry_to_follower (fun p r => snd (send w p r)) self p)
    as [self1 res].
  simpl in Hadv.
  destruct res as [[ni|]|e]; simpl; try exact Hadv.
  destruct ((ni =? 0) || (ni >? Log.len (log self1))); simpl; [exact Hadv|].
  eapply advances_trans; [exact Hadv | apply IH].
Qed.

Lemma heartbeat_round_advances fuel peers : forall w self,
  advances self (fst (snd (heartbeat_round send fuel w self peers))).
Proof.
  induction peers as [|server rest IH]; intros w self; simpl;
    [apply advances_refl|].
  pose proof (sync_follower_advances fuel server w self) as Hadv.
  destruct (sync_follower send fuel w self server) as [w1 [self1 res]].
  simpl in Hadv.
  destruct res as [[]|e|]; simpl; try exact Hadv.
  eapply advances_trans; [exact Hadv | apply IH].
Qed.

(** X24: whatever the network answers, neither driver rewrites history.  A
    heartbeat pass leaves the replica's log, vote, identity and peers as they
    were and does not lower its term or commit index; a client request does
    the same after the one append of the client's entry. *)
Theorem drivers_only_advance (fuel : nat) (w : W) (self : Server)
    (entry0 : json) :
  advances self (fst (snd (send_heartbeats_and_sync_up send fuel w self))) /\
  advances (fst (client_append self entry0))
    (fst (snd (handle_client_append_entry_request send fuel w self entry0))).
Proof.
  split.
  - unfold send_heartbeats_and_sync_up.
    destruct (role self); try apply advances_refl.
    apply heartbeat_round_advances.
  - unfold handle_client_append_entry_request, client_append.
    destruct (role self); simpl; try apply advances_refl.
    apply client_append_loop_advances.
Qed.

End DriverFrame.

(** ** A follower catching up *)

Section CatchUp.

Implicit Types (self f : Server) (w : dict Server) (l lf : Log.t).

Lemma own_entry_read l T i :
  Forall (fun x => term x = T /\ truthy (entry x) = true) l ->
  1 <= i <= Log.len l ->
  exists e,
    l !! Z.to_nat (i - 1) = Some {| term := T; entry := e |} /\
    truthy e = true /\
    Log.get_item l i = Ret e /\ Log.get_item_term l i = Ret T.
Proof.
  intros Hown Hi.
  destruct (log_read_in_range l i Hi) as (x & Hx & Hitem & Hterm).
  pose proof (Forall_lookup_1 _ _ _ _ Hown Hx) as [Ht Htruthy].
  destruct x as [t e]. simpl in *. subst t.
  exists e. auto.
Qed.

(** The request sent for next index [n] when all entries are the leader's
    own. *)
Lemma lagging_request self n :
  Forall (fun x => term x = current_term self /\ truthy (entry x) = true)
    (log self) ->
  1 <= n <= Log.len (log self) + 1 ->
  exists t e,
    append_entries_request self n =
      Ret {| ae_term := current_term self; ae_leaderId := id self;
             ae_prevLogIndex := n - 1; ae_prevLogTerm := t; ae_entry := e;
             ae_leaderCommit := commit_index self |} /\
    ((n = 1 /\ t = 0) \/ (2 <= n /\ t = current_term self)) /\
    ((n = Log.len (log self) + 1 /\ e = JNull) \/
     (n <= Log.len (log self) /\ truthy e = true /\
      log self !! Z.to_nat (n - 1)
      = Some {| term := current_term self; entry := e |})).
Proof.
  intros Hown Hn. unfold append_entries_request.
  assert (Ht : exists t,
            Log.get_item_term (log self) (n - 1) = Ret t /\
            ((n = 1 /\ t = 0) \/ (2 <= n /\ t = current_term self))).
  { destruct (Z.eq_dec n 1) as [-> | Hne].
    - exists 0. split; [reflexivity | auto].
    - destruct (own_entry_read (log self) (current_term self) (n - 1) Hown)
        as (e & _ & _ & _ & Hterm); [lia|].
      exists (current_term self). split; [exact Hterm | right; lia]. }
  assert (He : exists e,
            Log.get_item (log self) n = Ret e /\
            ((n = Log.len (log self) + 1 /\ e = JNull) \/
             (n <= Log.len (log self) /\ truthy e = true /\
              log self !! Z.to_nat (n - 1)
              = Some {| term := current_term self; entry := e |}))).
  { destruct (Z.eq_dec n (Log.len (log self) + 1)) as [-> | Hne].
    - exists JNull. unfold Log.get_item. rewrite Z.eqb_refl. auto.
    - destruct (own_entry_read (log self) (current_term self) n Hown)
        as (e & Hx & Htruthy & Hitem & _); [lia|].
      exists e. split; [exact Hitem | right]. split; [lia | auto]. }
  destruct Ht as (t & -> & Ht). destruct He as (e & -> & He).
  exists t, e. simpl. auto.
Qed.

(** The log check of a follower whose log is a prefix, at an index it
    holds. *)
Lemma lagging_sync lf l T n t :
  lf `prefix_of` l ->
  Forall (fun x => term x = T /\ truthy (entry x) = true) l ->
  1 <= n -> n - 1 <= Log.len lf ->
  ((n = 1 /\ t = 0) \/ (2 <= n /\ t = T)) ->
  Log.sync_at_item lf (n - 1) t = Ret (true, take (Z.to_nat (n - 1)) l).
Proof.
  intros Hpre Hown Hn Hlen [[-> ->] | [Hn2 ->]].
  - simpl. rewrite sync_at_item_0. reflexivity.
  - destruct (sync_at_item_in_range lf (n - 1) T) as (x & Hx & ->); [lia|].
    pose proof (prefix_lookup_Some _ _ _ _ Hx Hpre) as Hxl.
    pose proof (Forall_lookup_1 _ _ _ _ Hown Hxl) as [Ht _].
    rewrite Ht, Z.eqb_refl.
    destruct Hpre as [k ->]. rewrite take_app_le; [reflexivity|].
    unfold Log.len in Hlen. lia.
Qed.

End CatchUp.

Section CatchUpExchange.

Implicit Types (self f : Server) (w : dict Server).

(** What the call returns, given the reply, when the reply's term does not
    make the replica step down. *)
Lemma append_entry_to_follower_on_reply transport self p n request result :
  dict_get (followers_next_indexes self) p = Some n ->
  append_entries_request self n = Ret request ->
  transport p request = Some result ->
  aer_term result <= current_term self ->
  snd (append_entry_to_follower transport self p) =
    if aer_success result
    then Ret (Some (if truthy (ae_entry request) then n + 1 else n))
    else if n - 1 >? 0 then Ret (Some (n - 1)) else Raise AssertionError.
Proof.
  intros Hget Hreq Hreply Hterm. unfold append_entry_to_follower.
  rewrite Hget, Hreq, Hreply.
  destruct (check_response_term_cases self (aer_term result))
    as [[_ ->] | Hc].
  - simpl. destruct (aer_success result); simpl.
    + destruct (truthy (ae_entry request)); reflexivity.
    + destruct (n - 1 >? 0); reflexivity.
  - unfold check_response_term in Hc.
    destruct (Z.gtb_spec (aer_term result) (current_term self)); [lia|].
    discriminate.
Qed.

Lemma append_entry_to_follower_returns_term transport self p n :
  snd (append_entry_to_follower transport self p) = Ret (Some n) ->
  current_term (fst (append_entry_to_follower transport self p))
  = current_term self.
Proof.
  unfold append_entry_to_follower.
  destruct (dict_get _ _) as [next_index|]; [|discriminate].
  destruct (append_entries_request self next_index) as [request|];
    [|discriminate].
  destruct (transport p request) as [result|]; [|discriminate].
  destruct (check_response_term_cases self (aer_term result))
    as [[_ ->] | ->]; simpl; [|discriminate].
  destruct (aer_success result); simpl.
  - destruct (truthy (ae_entry request)); simpl; [|reflexivity].
    intros _. rewrite try_leader_commit_current_term. reflexivity.
  - destruct (next_index - 1 >? 0); reflexivity.
Qed.

(** The handler of a follower whose log is too short for the previous
    index. *)
Lemma handle_append_entry_request_short f request :
  current_term f <= ae_term request ->
  Log.len (log f) < ae_prevLogIndex request ->
  exists f1,
    handle_append_entry_request f request =
      (f1, Ret {| aer_term := current_term f; aer_success := false |}) /\
    log f1 = log f /\ current_term f1 = ae_term request.
Proof.
  intros Hterm Hshort. unfold handle_append_entry_request.
  apply Z.ltb_ge in Hterm. rewrite Hterm. simpl.
  unfold Log.sync_at_item. apply Z.ltb_lt in Hshort. rewrite Hshort. simpl.
  eexists. split; [reflexivity|]. split; reflexivity.
Qed.

(** One exchange with a lagging follower, seen from both sides: what the
    follower becomes, and what the leader's call returns. *)
Lemma exchange_lagging w self p f n :
  lagging w self p f n ->
  exists f1 n1,
    fst (exchange cluster_send w self p) = dict_set w p f1 /\
    snd (snd (exchange cluster_send w self p)) = Ret (Some n1) /\
    current_term f1 = current_term self /\
    ((Log.len (log f) < n - 1 /\ n1 = n - 1 /\ log f1 = log f) \/
     (n - 1 <= Log.len (log f) /\
      n1 = Z.min (n + 1) (Log.len (log self) + 1) /\
      log f1 = take (Z.to_nat n) (log self))).
Proof.
  intros [Hworld Hnext Hrange Hpre Hterm Hown].
  destruct (lagging_request self n Hown Hrange) as (t & e & Hreq & Ht & He).
  set (request := {| ae_term := current_term self; ae_leaderId := id self;
                     ae_prevLogIndex := n - 1; ae_prevLogTerm := t;
                     ae_entry := e; ae_leaderCommit := commit_index self |})
    in *.
  pose proof (len_nonneg (log f)) as Hnn.
  assert (Hhandled : exists f1 result,
            handle_append_entry_request f request = (f1, Ret result) /\
            aer_term result = current_term f /\
            current_term f1 = current_term self /\
            ((Log.len (log f) < n - 1 /\ aer_success result = false /\
              log f1 = log f) \/
             (n - 1 <= Log.len (log f) /\ aer_success result = true /\
              log f1 = take (Z.to_nat n) (log self)))).
  { destruct (Z.lt_ge_cases (Log.len (log f)) (n - 1)) as [Hshort | Hlong].
    - destruct (handle_append_entry_request_short f request Hterm Hshort)
        as (f1 & Hh & Hlog & Ht1).
      exists f1, {| aer_term := current_term f; aer_success := false |}.
      split; [exact Hh|]. split; [reflexivity|]. split; [exact Ht1|]. auto.
    - pose proof (lagging_sync (log f) (log self) (current_term self) n t
                    Hpre Hown (proj1 Hrange) Hlong Ht) as Hsync.
      pose proof (handle_append_entry_request_accepted f request
                    (take (Z.to_nat (n - 1)) (log self)) Hterm Hsync) as Hh.
      cbv zeta in Hh. rewrite Hh.
      eexists. eexists. split; [reflexivity|]. simpl.
      split; [reflexivity|]. split; [reflexivity|]. right.
      split; [lia|]. split; [reflexivity|].
      destruct He as [[Hn ->] | (Hn & Htruthy & Hx)]; simpl.
      + unfold Log.len in *. rewrite !take_ge by lia. reflexivity.
      + rewrite Htruthy.
        replace (Z.to_nat n) with (S (Z.to_nat (n - 1))) by lia.
        symmetry. apply take_S_r. exact Hx. }
  destruct Hhandled as (f1 & result & Hh & Hrt & Ht1 & Hcase).
  assert (Hsend : cluster_send w p request = (dict_set w p f1, Some result)).
  { unfold cluster_send. rewrite Hworld, Hh. reflexivity. }
  assert (Hout : snd (snd (exchange cluster_send w self p)) =
            if aer_success result
            then Ret (Some (if truthy (ae_entry request) then n + 1 else n))
            else if n - 1 >? 0 then Ret (Some (n - 1))
                 else Raise AssertionError).
  { unfold exchange. cbv zeta. cbn [snd].
    apply (append_entry_to_follower_on_reply _ self p n request result);
      try assumption.
    - cbv beta. rewrite Hsend. reflexivity.
    - lia. }
  assert (Hw : fst (exchange cluster_send w self p) = dict_set w p f1).
  { unfold exchange. cbv zeta. cbn [fst]. rewrite Hnext, Hreq, Hsend.
    reflexivity. }
  destruct Hcase as [(Hshort & Hfail & Hlog) | (Hlong & Hok & Hlog)].
  - exists f1, (n - 1). split; [exact Hw|]. split.
    + rewrite Hout, Hfail.
      assert (Hgt : (n - 1 >? 0) = true) by (apply Z.gtb_lt; lia).
      rewrite Hgt. reflexivity.
    + split; [exact Ht1 | left; auto].
  - exists f1, (Z.min (n + 1) (Log.len (log self) + 1)).
    split; [exact Hw|]. split.
    + rewrite Hout, Hok. simpl.
      destruct He as [[Hn ->] | (Hn & Htruthy & _)]; simpl.
      * do 2 f_equal. lia.
      * rewrite Htruthy. do 2 f_equal. lia.
    + split; [exact Ht1 | right; auto].
Qed.

End CatchUpExchange.

Section CatchUpLoop.

Implicit Types (self f : Server) (w : dict Server).

Lemma sync_follower_converges p fuel : forall w self f n,
  lagging w self p f n ->
  (Log.len (log self) + 1 - n) + 2 * Z.max 0 (n - 1 - Log.len (log f))
  < Z.of_nat fuel ->
  let out := sync_follower cluster_send fuel w self p in
  snd (snd out) = Returned tt /\
  log (fst (snd out)) = log self /\
  current_term (fst (snd out)) = current_term self /\
  dict_get (followers_next_indexes (fst (snd out))) p
  = Some (Log.len (log self) + 1) /\
  exists f', dict_get (fst out) p = Some f' /\
             log f' = log self /\ current_term f' = current_term self.
Proof.
  induction fuel as [|fuel IH]; intros w self f n Hlag Hfuel.
  { destruct Hlag as [_ _ Hrange _ _ _]. simpl in Hfuel. lia. }
  cbn [sync_follower].
  destruct (exchange_lagging w self p f n Hlag)
    as (f1 & n1 & Hw & Hres & Ht1 & Hcase).
  pose proof (append_entry_to_follower_advances
                (fun p r => snd (cluster_send w p r)) self p) as Hadv.
  pose proof (append_entry_to_follower_returns
                (fun p r => snd (cluster_send w p r)) self p n1) as Hret.
  pose proof (append_entry_to_follower_returns_term
                (fun p r => snd (cluster_send w p r)) self p n1) as Hterm1.
  change (append_entry_to_follower (fun p r => snd (cluster_send w p r)) self p)
    with (snd (exchange cluster_send w self p)) in Hadv, Hret, Hterm1.
  destruct (exchange cluster_send w self p) as [w1 [self1 res]].
  simpl in Hw, Hres, Hadv, Hret, Hterm1. subst w1 res.
  specialize (Hret eq_refl). specialize (Hterm1 eq_refl).
  pose proof (adv_log _ _ Hadv) as Hlog1.
  destruct Hlag as [Hworld Hnext Hrange Hpre Hterm Hown].
  pose proof (len_nonneg (log f)) as Hnn.
  assert (Hlag1 : log f1 `prefix_of` log self ->
                  1 <= n1 <= Log.len (log self) + 1 ->
                  lagging (dict_set w p f1) self1 p f1 n1).
  { intros Hpre1 Hrange1. constructor.
    - apply dict_get_set_eq.
    - exact Hret.
    - rewrite Hlog1. exact Hrange1.
    - rewrite Hlog1. exact Hpre1.
    - lia.
    - rewrite Hlog1, Hterm1. exact Hown. }
  assert (Hdone : Log.len (log self) < n1 -> log f1 = log self ->
            n1 = Log.len (log self) + 1 ->
            let out :=
              (if (n1 =? 0) || (n1 >? Log.len (log self1))
               then (dict_set w p f1, (self1, Returned tt))
               else sync_follower cluster_send fuel (dict_set w p f1) self1 p)
            in
            snd (snd out) = Returned tt /\
            log (fst (snd out)) = log self /\
            current_term (fst (snd out)) = current_term self /\
            dict_get (followers_next_indexes (fst (snd out))) p
            = Some (Log.len (log self) + 1) /\
            exists f', dict_get (fst out) p = Some f' /\
                       log f' = log self /\
                       current_term f' = current_term self).
  { intros Hgt Hf1 Hn1. rewrite Hlog1.
    assert (E : (n1 >? Log.len (log self)) = true) by (apply Z.gtb_lt; lia).
    rewrite E, orb_true_r. simpl.
    split; [reflexivity|]. split; [exact Hlog1|]. split; [exact Hterm1|].
    split; [rewrite Hret; f_equal; exact Hn1|].
    exists f1. split; [apply dict_get_set_eq | auto]. }
  assert (Hmore : 1 <= n1 <= Log.len (log self) ->
            log f1 `prefix_of` log self ->
            (Log.len (log self) + 1 - n1)
            + 2 * Z.max 0 (n1 - 1 - Log.len (log f1)) < Z.of_nat fuel ->
            let out :=
              (if (n1 =? 0) || (n1 >? Log.len (log self1))
               then (dict_set w p f1, (self1, Returned tt))
               else sync_follower cluster_send fuel (dict_set w p f1) self1 p)
            in
            snd (snd out) = Returned tt /\
            log (fst (snd out)) = log self /\
            current_term (fst (snd out)) = current_term self /\
            dict_get (followers_next_indexes (fst (snd out))) p
            = Some (Log.len (log self) + 1) /\
            exists f', dict_get (fst out) p = Some f' /\
                       log f' = log self /\
                       current_term f' = current_term self).
  { intros Hrange1 Hpre1 Hfuel1. rewrite Hlog1.
    assert (E1 : (n1 =? 0) = false) by (apply Z.eqb_neq; lia).
    assert (E2 : (n1 >? Log.len (log self)) = false).
    { destruct (Z.gtb_spec n1 (Log.len (log self))); [lia | reflexivity]. }
    rewrite E1, E2. simpl orb. cbv iota.
    pose proof (IH (dict_set w p f1) self1 f1 n1
                  (Hlag1 Hpre1 ltac:(lia))) as Hrec.
    rewrite Hlog1, Hterm1 in Hrec. apply Hrec. exact Hfuel1. }
  destruct Hcase as [(Hshort & -> & Hf1) | (Hlong & -> & Hf1)].
  - apply Hmore.
    + lia.
    + rewrite Hf1. exact Hpre.
    + rewrite Hf1. lia.
  - destruct (Z.lt_ge_cases n (Log.len (log self))) as [Hlt | Hge].
    + assert (Hlen1 : Log.len (log f1) = n).
      { rewrite Hf1. unfold Log.len in *. rewrite length_take_le by lia. lia. }
      apply Hmore.
      * lia.
      * rewrite Hf1. apply prefix_take.
      * rewrite Hlen1. lia.
    + apply Hdone.
      * lia.
      * rewrite Hf1. apply take_ge. unfold Log.len in *. lia.
      * lia.
Qed.

(** X25: a heartbeat brings a lagging follower up to date.  When the
    follower's log is a prefix of the leader's, its term is not above the
    leader's, and every entry of the leader carries the leader's current
    term and a truthy payload, the inner loop of the heartbeat for that
    follower ends within [3 * len(log) + 1] exchanges: the follower then
    holds exactly the leader's log at the leader's term, and the leader's
    next index for it is [len(log) + 1]. *)
Theorem heartbeat_brings_follower_up_to_date (p : string) (fuel : nat)
    (w : dict Server) (self f : Server) (n : Z) :
  lagging w self p f n ->
  3 * Log.len (log self) < Z.of_nat fuel ->
  let out := sync_follower cluster_send fuel w self p in
  snd (snd out) = Returned tt /\
  log (fst (snd out)) = log self /\
  current_term (fst (snd out)) = current_term self /\
  dict_get (followers_next_indexes (fst (snd out))) p
  = Some (Log.len (log self) + 1) /\
  exists f', dict_get (fst out) p = Some f' /\
             log f' = log self /\ current_term f' = current_term self.
Proof.
  intros Hlag Hfuel. apply (sync_follower_converges p fuel w self f n Hlag).
  destruct Hlag as [_ _ Hrange _ _ _].
  pose proof (len_nonneg (log f)). lia.
Qed.

End CatchUpLoop.

Lemma lagging_busy : lagging two_followers busy "5001" fresh 1.
Proof.
  constructor.
  - reflexivity.
  - reflexivity.
  - unfold Log.len. simpl. lia.
  - apply prefix_nil.
  - simpl. lia.
  - repeat constructor.
Qed.

Lemma heartbeat_brings_follower_up_to_date_witness :
  let out := sync_follower cluster_send 7 two_followers busy "5001" in
  snd (snd out) = Returned tt /\
  log (fst (snd out)) = log busy /\
  current_term (fst (snd out)) = current_term busy /\
  dict_get (followers_next_indexes (fst (snd out))) "5001"
  = Some (Log.len (log busy) + 1) /\
  exists f', dict_get (fst out) "5001" = Some f' /\
             log f' = log busy /\ current_term f' = current_term busy.
Proof.
  apply (heartbeat_brings_follower_up_to_date "5001" 7 two_followers busy
           fresh 1).
  - exact lagging_busy.
  - unfold Log.len. simpl. lia.
Defined.

(** Without the own-term condition the follower does not keep up: the
    veteran's entry has term 1 while its current term is 2.  The first
    heartbeat pass stores the entry at the follower under term 2; the second
    pass finds term 2 where it announces term 1, so the follower empties its
    log and still answers with success, and the leader keeps next index 2
    and match index 1 for it. *)
Example old_term_entry_is_lost :
  let out1 := send_heartbeats_and_sync_up cluster_send 5 two_followers
                veteran in
  let out2 := send_heartbeats_and_sync_up cluster_send 5 (fst out1)
                (fst (snd out1)) in
  log veteran = [{| term := 1; entry := a1 |}] /\ current_term veteran = 2 /\
  (log <$> dict_get (fst out1) "5001") = Some [{| term := 2; entry := a1 |}] /\
  snd (snd out2) = Returned tt /\
  (log <$> dict_get (fst out2) "5001") = Some [] /\
  dict_get (followers_next_indexes (fst (snd out2))) "5001" = Some 2 /\
  dict_get (followers_match_indexes (fst (snd out2))) "5001" = Some 1.
Proof. repeat split. Qed.
